(** * Base classes for spokes: pyanaconda/ui/gui/spokes/__init__.py

    A shallow embedding of the spoke base classes ([Spoke],
    [StandaloneSpoke], [NormalSpoke], [PersonalizationSpoke]) and of
    [collect_spokes], followed by the properties the specification states
    about them.

    Python classes are values of [pyclass]; class attributes and methods are
    looked up along the parent chain the way Python resolves them.  Code
    that has effects runs in the monad [M]: a state monad over [world] with
    Python exceptions, blocking calls, and the list of the worlds the run
    went through. *)

From Stdlib Require Import ZArith Ascii String.
From stdpp Require Import base strings list gmap sorting.

Open Scope string_scope.
Open Scope list_scope.

(** ** Python values *)

(** A reference to a class defined elsewhere (a Hub subclass, a spoke
    category).  [class_id] is the identity of the class object, [class_name]
    its [__name__]. *)
Record classref := ClassRef { class_id : nat; class_name : string }.

#[global] Instance classref_eq_dec : EqDecision classref.
Proof. solve_decision. Defined.

(** Opaque references handed to every constructor (ksdata, devicetree,
    payload, instclass). *)
Definition handle := nat.

(** The exceptions this module raises or lets escape. *)
Inductive exn :=
| TypeError (msg : string)
| AttributeError (msg : string)
| NotImplementedError.

#[global] Instance exn_eq_dec : EqDecision exn.
Proof. solve_decision. Defined.

(** The names the specification gives to the two construction errors. *)
Definition AbstractInstantiationError (e : exn) : Prop :=
  ∃ n, e = TypeError (n +:+ " is an abstract class").
Definition InvalidConfigurationError (e : exn) : Prop :=
  ∃ msg, e = AttributeError msg.

Inductive result (A : Type) :=
| Ok (a : A)
| Err (e : exn).
Arguments Ok {A} a.
Arguments Err {A} e.

(** The shared configuration object the spokes read and write. *)
Abbreviation ksdata := (gmap string string).

(** How the body of a [check] method behaves as the target of a thread: it
    returns by itself, it runs until it sees its thread's [kill] flag, or it
    never returns. *)
Inductive behaviour := Returns | UntilKilled | Forever.

#[global] Instance behaviour_eq_dec : EqDecision behaviour.
Proof. solve_decision. Defined.

(** ** Classes *)

Inductive builtin := Spoke | StandaloneSpoke | NormalSpoke | PersonalizationSpoke.

#[global] Instance builtin_eq_dec : EqDecision builtin.
Proof. solve_decision. Defined.

(** What the body of a subclass assigns or defines; [None] means the name is
    not bound in that class body and is inherited. *)
Record class_body := ClassBody {
  cb_category : option (option classref);
  cb_icon : option (option string);
  cb_title : option (option string);
  cb_preForHub : option (option classref);
  cb_postForHub : option (option classref);
  cb_priority : option Z;
  cb_apply : option (ksdata → result ksdata);
  cb_completed : option (ksdata → bool);
  cb_status : option (ksdata → string);
  cb_check : option behaviour;
  cb_ready : option (ksdata → bool)
}.

(** [class X(parent): pass] *)
Definition pass : class_body :=
  ClassBody None None None None None None None None None None None.

Inductive pyclass :=
| Builtin (b : builtin)
| Subclass (name : string) (parent : pyclass) (body : class_body).

Coercion Builtin : builtin >-> pyclass.

(** [c is b] for one of the four classes of this module. *)
Definition class_is (c : pyclass) (b : builtin) : bool :=
  match c with
  | Builtin b' => bool_decide (b' = b)
  | Subclass _ _ _ => false
  end.

(** The class of this module that [c] is or derives from. *)
Fixpoint builtin_of (c : pyclass) : builtin :=
  match c with
  | Builtin b => b
  | Subclass _ p _ => builtin_of p
  end.

(** [issubclass(c, b)]; the three other classes derive from [Spoke]. *)
Definition issubclass (c : pyclass) (b : builtin) : bool :=
  match b with
  | Spoke => true
  | _ => bool_decide (builtin_of c = b)
  end.

Definition __name__ (c : pyclass) : string :=
  match c with
  | Builtin Spoke => "Spoke"
  | Builtin StandaloneSpoke => "StandaloneSpoke"
  | Builtin NormalSpoke => "NormalSpoke"
  | Builtin PersonalizationSpoke => "PersonalizationSpoke"
  | Subclass n _ _ => n
  end.

(** *** Class attributes

    [Spoke] binds [category], [icon] and [title] to [None];
    [StandaloneSpoke] adds [preForHub = None], [postForHub = None] and
    [priority = 100].  The three attributes of [StandaloneSpoke] do not
    exist on the other classes: their lookup gives [None] at the outer
    level, Python's [AttributeError]. *)

Fixpoint category (c : pyclass) : option classref :=
  match c with
  | Builtin _ => None
  | Subclass _ p b => default (category p) (cb_category b)
  end.

Fixpoint icon (c : pyclass) : option string :=
  match c with
  | Builtin _ => None
  | Subclass _ p b => default (icon p) (cb_icon b)
  end.

Fixpoint title (c : pyclass) : option string :=
  match c with
  | Builtin _ => None
  | Subclass _ p b => default (title p) (cb_title b)
  end.

Fixpoint preForHub (c : pyclass) : option (option classref) :=
  match c with
  | Builtin StandaloneSpoke => Some None
  | Builtin _ => None
  | Subclass _ p b =>
      match cb_preForHub b with
      | Some v => Some v
      | None => preForHub p
      end
  end.

Fixpoint postForHub (c : pyclass) : option (option classref) :=
  match c with
  | Builtin StandaloneSpoke => Some None
  | Builtin _ => None
  | Subclass _ p b =>
      match cb_postForHub b with
      | Some v => Some v
      | None => postForHub p
      end
  end.

Fixpoint priority (c : pyclass) : option Z :=
  match c with
  | Builtin StandaloneSpoke => Some 100%Z
  | Builtin _ => None
  | Subclass _ p b =>
      match cb_priority b with
      | Some v => Some v
      | None => priority p
      end
  end.

(** ** Instances *)

(** [cls] is [self.__class__]; the other fields are the instance
    attributes the constructors bind.  [selector] is bound by
    [NormalSpoke.__init__] only: the outer [None] is an instance without
    that attribute. *)
Record instance := Instance {
  cls : pyclass;
  self_data : handle;
  self_devicetree : handle;
  self_payload : handle;
  self_instclass : handle;
  self_selector : option (option handle)
}.

(** An object whose [__init__] has not run yet. *)
Definition blank (c : pyclass) : instance := Instance c 0 0 0 0 None.

(** [str(self)] without the module path and the address, which the model
    does not have. *)
Definition str_of (self : instance) : string :=
  "<" +:+ __name__ (cls self) +:+ " object>".

(** ** Construction

    [__init__] only reads its arguments and the class of [self]; it is a
    function from the blank object to the initialised one, or to the
    exception it raises. *)

(** Modelled from the spec: [UIObject.__init__] (pyanaconda.ui.gui, not in
    this module) is the generic UI-object initializer; it takes the shared
    config data and stores the reference. *)
Definition UIObject___init__ (self : instance) (data : handle) : result instance :=
  Ok (Instance (cls self) data (self_devicetree self) (self_payload self)
        (self_instclass self) (self_selector self)).

Definition Spoke___init__ (self : instance) (data devicetree payload instclass : handle)
  : result instance :=
  if class_is (cls self) Spoke then
    Err (TypeError "Spoke is an abstract class")
  else
    match UIObject___init__ self data with
    | Err e => Err e
    | Ok self =>
        Ok (Instance (cls self) (self_data self) devicetree payload instclass
              (self_selector self))
    end.

(** Python truth value of a class attribute that holds a class or [None]. *)
Definition truthy {A} (v : option A) : bool := bool_decide (is_Some v).

(** [self.name] for a class attribute that may not exist. *)
Definition getattr {A} (name : string) (v : option A) : result A :=
  match v with
  | Some a => Ok a
  | None => Err (AttributeError ("object has no attribute '" +:+ name +:+ "'"))
  end.

Definition StandaloneSpoke___init__ (self : instance)
    (data devicetree payload instclass : handle) : result instance :=
  if class_is (cls self) StandaloneSpoke then
    Err (TypeError "StandaloneSpoke is an abstract class")
  else
    match getattr "preForHub" (preForHub (cls self)) with
    | Err e => Err e
    | Ok pre =>
        (* [and] evaluates its right operand only when the left one is true *)
        match (if truthy pre then getattr "postForHub" (postForHub (cls self))
               else Ok pre) with
        | Err e => Err e
        | Ok both =>
            if truthy both then
              Err (AttributeError ("StandaloneSpoke instance " +:+ str_of self +:+
                     " may not have both preForHub and postForHub set"))
            else Spoke___init__ self data devicetree payload instclass
        end
    end.

Definition NormalSpoke___init__ (self : instance)
    (data devicetree payload instclass : handle) : result instance :=
  if class_is (cls self) NormalSpoke then
    Err (TypeError "NormalSpoke is an abstract class")
  else
    match Spoke___init__ self data devicetree payload instclass with
    | Err e => Err e
    | Ok self =>
        Ok (Instance (cls self) (self_data self) (self_devicetree self)
              (self_payload self) (self_instclass self) (Some None))
    end.

Definition PersonalizationSpoke___init__ (self : instance)
    (data devicetree payload instclass : handle) : result instance :=
  if class_is (cls self) PersonalizationSpoke then
    Err (TypeError "PersonalizationSpoke is an abstract class")
  else Spoke___init__ self data devicetree payload instclass.

(** [c(data, devicetree, payload, instclass)]: the [__init__] found first
    along the parent chain runs on a blank object of class [c].  Subclasses
    inherit [__init__]. *)
Definition construct (c : pyclass) (data devicetree payload instclass : handle)
  : result instance :=
  match builtin_of c with
  | Spoke => Spoke___init__ (blank c) data devicetree payload instclass
  | StandaloneSpoke => StandaloneSpoke___init__ (blank c) data devicetree payload instclass
  | NormalSpoke => NormalSpoke___init__ (blank c) data devicetree payload instclass
  | PersonalizationSpoke =>
      PersonalizationSpoke___init__ (blank c) data devicetree payload instclass
  end.

(** ** The world

    Threads live in a heap ([threads], a thread's index is its identity);
    [objs] is the dictionary of the thread manager, from names to threads;
    [ks] is the shared configuration object; [handlers] are the signal
    handlers connected to the window; [log] records, in order, the calls
    that reach the outside of this module. *)

(** The bound method [self.check]: the instance and how the [check] its
    class resolves to behaves. *)
Record bound_check := BoundCheck { im_self : instance; im_func : behaviour }.

(** A [threading.Thread].  [thr_kill] is the attribute [kill] that
    [on_back_clicked] sets (false while it is unset); [thr_alive] holds from
    [start()] until the target returns. *)
Record Thread := MkThread {
  thr_name : string;
  thr_target : bound_check;
  thr_kill : bool;
  thr_alive : bool
}.

(** A callback handed to [register_event_cb]: it acts on the shared data
    and may raise. *)
Definition callback := ksdata → result ksdata.

(** The two lambdas [register_event_cb] connects to the window. *)
Inductive closure :=
| lambda_continue (self : instance) (cb : callback)
| lambda_quit (cb : callback).

Inductive event :=
| EvHide (self : instance)              (* self.window.hide() *)
| EvMainQuit                            (* Gtk.main_quit() *)
| EvGet (name : string)                 (* threadMgr.get(name) *)
| EvKill (thr : nat)                    (* thr.kill = True *)
| EvJoin (thr : nat)                    (* thr.join() has returned *)
| EvThread (thr : nat)                  (* Thread(...) *)
| EvAdd (name : string) (thr : nat)     (* threadMgr.add registers thr *)
| EvStart (thr : nat)                   (* thr.start() *)
| EvApply (self : instance)             (* self.apply() is entered *)
| EvCallback                            (* cb() is entered *)
| EvConnect (signal : string).          (* self.window.connect(signal, ...) *)

Record world := World {
  ks : ksdata;
  threads : list Thread;
  objs : gmap string nat;
  handlers : list (string * closure);
  log : list event
}.

Definition with_ks (d : ksdata) (w : world) : world :=
  World d (threads w) (objs w) (handlers w) (log w).
Definition with_threads (f : list Thread → list Thread) (w : world) : world :=
  World (ks w) (f (threads w)) (objs w) (handlers w) (log w).
Definition with_objs (f : gmap string nat → gmap string nat) (w : world) : world :=
  World (ks w) (threads w) (f (objs w)) (handlers w) (log w).
Definition connect (signal : string) (f : closure) (w : world) : world :=
  World (ks w) (threads w) (objs w) (handlers w ++ [(signal, f)]) (log w).
Definition tell (e : event) (w : world) : world :=
  World (ks w) (threads w) (objs w) (handlers w) (log w ++ [e]).

(** ** The monad *)

(** A call returns a value, raises, or blocks for ever. *)
Inductive outcome (A : Type) :=
| Return (a : A)
| Raise (e : exn)
| Hang.
Arguments Return {A} a.
Arguments Raise {A} e.
Arguments Hang {A}.

(** What a run leaves: its outcome, the world at its end, and the worlds it
    went through, one per statement executed, oldest first. *)
Record run (A : Type) := Run {
  out : outcome A;
  final : world;
  visited : list world
}.
Arguments Run {A} out final visited.
Arguments out {A} r.
Arguments final {A} r.
Arguments visited {A} r.

Definition M (A : Type) : Type := world → run A.

#[global] Instance M_ret : MRet M := λ A a w, Run (Return a) w [].

#[global] Instance M_bind : MBind M := λ A B f m w,
  let r := m w in
  match out r with
  | Return a =>
      let r' := f a (final r) in
      Run (out r') (final r') (visited r ++ visited r')
  | Raise e => Run (Raise e) (final r) (visited r)
  | Hang => Run Hang (final r) (visited r)
  end.

Definition raise {A} (e : exn) : M A := λ w, Run (Raise e) w [].

Definition lift {A} (r : result A) : M A :=
  match r with
  | Ok a => mret a
  | Err e => raise e
  end.

Definition gets {A} (f : world → A) : M A := λ w, Run (Return (f w)) w [].

(** One statement with an effect: the world changes by [f] and the call is
    logged. *)
Definition step (e : event) (f : world → world) : M unit := λ w,
  let w' := tell e (f w) in Run (Return ()) w' [w'].

(** Running code of a subclass or of a caller on the shared data. *)
Definition run_body (f : ksdata → result ksdata) : M unit := λ w,
  match f (ks w) with
  | Ok d => Run (Return ()) (with_ks d w) [with_ks d w]
  | Err e => Run (Raise e) w []
  end.

(** ** Threads *)

(** Whether the target of [th] returns, given the flag it can see. *)
Definition exits (th : Thread) : bool :=
  match im_func (thr_target th) with
  | Returns => true
  | UntilKilled => thr_kill th
  | Forever => false
  end.

(** The three ways a thread object changes. *)
Definition killed (th : Thread) : Thread :=
  MkThread (thr_name th) (thr_target th) true (thr_alive th).
Definition finished (th : Thread) : Thread :=
  MkThread (thr_name th) (thr_target th) (thr_kill th) false.
Definition running (th : Thread) : Thread :=
  MkThread (thr_name th) (thr_target th) (thr_kill th) true.

(** [Thread(name=name, target=target)]: a new thread object, not started. *)
Definition Thread_new (name : string) (target : bound_check) : M nat :=
  new ← gets (λ w, length (threads w));
  step (EvThread new) (with_threads (λ ts, ts ++ [MkThread name target false false]));;
  mret new.

(** [thr.kill = True] *)
Definition set_kill (thr : nat) : M unit :=
  step (EvKill thr) (with_threads (alter killed thr)).

(** Whether [thr.join()] waits for ever: the thread is alive and its
    target never returns. *)
Definition blocks (thr : nat) (w : world) : bool :=
  match threads w !! thr with
  | Some th => thr_alive th && negb (exits th)
  | None => false
  end.

(** [thr.join()]: returns once the thread is not alive any more. *)
Definition join (thr : nat) : M unit := λ w,
  if blocks thr w then Run Hang w []
  else step (EvJoin thr) (with_threads (alter finished thr)) w.

(** [thr.start()] *)
Definition start (thr : nat) : M unit :=
  step (EvStart thr) (with_threads (alter running thr)).

(** Modelled from the spec: the worker registry [threadMgr]
    (pyanaconda.threads, not in this module) is a process-wide lookup from a
    name to a worker; lookup-by-name returns none if absent. *)
Definition threadMgr_get (name : string) : M (option nat) :=
  step (EvGet name) id;;
  gets (λ w, objs w !! name).

(** Modelled from the spec: [threadMgr.add] registers the worker under its
    own name and starts it. *)
Definition threadMgr_add (thr : nat) : M unit :=
  o ← gets (λ w, threads w !! thr);
  match o with
  | Some th =>
      step (EvAdd (thr_name th) thr) (with_objs <[thr_name th := thr]>);;
      start thr
  | None => mret ()
  end.

(** ** Method resolution *)

(** Whether [c] or a class between it and the classes of this module binds
    the name that [field] reads. *)
Fixpoint overrides {A} (field : class_body → option A) (c : pyclass) : bool :=
  match c with
  | Builtin _ => false
  | Subclass _ p b =>
      match field b with
      | Some _ => true
      | None => overrides field p
      end
  end.

(** ** class Spoke *)

Definition Spoke_apply (self : instance) : M unit := raise NotImplementedError.

Definition Spoke_completed (self : instance) : M bool := mret false.

Definition Spoke_status (self : instance) : M string := raise NotImplementedError.

Fixpoint resolve_apply (c : pyclass) : instance → M unit :=
  match c with
  | Builtin _ => Spoke_apply
  | Subclass _ p b =>
      match cb_apply b with
      | Some f => λ _, run_body f
      | None => resolve_apply p
      end
  end.

Fixpoint resolve_completed (c : pyclass) : instance → M bool :=
  match c with
  | Builtin _ => Spoke_completed
  | Subclass _ p b =>
      match cb_completed b with
      | Some f => λ _, gets (λ w, f (ks w))
      | None => resolve_completed p
      end
  end.

Fixpoint resolve_status (c : pyclass) : instance → M string :=
  match c with
  | Builtin _ => Spoke_status
  | Subclass _ p b =>
      match cb_status b with
      | Some f => λ _, gets (λ w, f (ks w))
      | None => resolve_status p
      end
  end.

(** [self.apply()], [self.completed], [self.status] *)
Definition apply (self : instance) : M unit :=
  step (EvApply self) id;;
  resolve_apply (cls self) self.
Definition completed (self : instance) : M bool := resolve_completed (cls self) self.
Definition status (self : instance) : M string := resolve_status (cls self) self.

(** ** class StandaloneSpoke *)

(** [cb()] *)
Definition call (cb : callback) : M unit :=
  step EvCallback id;;
  run_body cb.

Definition _on_continue_clicked (self : instance) (cb : callback) : M unit :=
  apply self;;
  call cb.

(** Calling a connected handler. *)
Definition invoke (f : closure) : M unit :=
  match f with
  | lambda_continue self cb => _on_continue_clicked self cb
  | lambda_quit cb => call cb
  end.

Definition register_event_cb (self : instance) (event : string) (cb : callback)
  : M unit :=
  if String.eqb event "continue" then
    step (EvConnect "continue-clicked")
      (connect "continue-clicked" (lambda_continue self cb))
  else if String.eqb event "quit" then
    step (EvConnect "quit-clicked") (connect "quit-clicked" (lambda_quit cb))
  else mret ().

(** ** class NormalSpoke *)

(** [def check(self): pass] *)
Definition NormalSpoke_check : behaviour := Returns.

Definition NormalSpoke_ready (self : instance) : M bool := mret true.

Fixpoint resolve_check (c : pyclass) : option behaviour :=
  match c with
  | Builtin NormalSpoke => Some NormalSpoke_check
  | Builtin _ => None
  | Subclass _ p b =>
      match cb_check b with
      | Some v => Some v
      | None => resolve_check p
      end
  end.

Fixpoint resolve_ready (c : pyclass) : option (instance → M bool) :=
  match c with
  | Builtin NormalSpoke => Some NormalSpoke_ready
  | Builtin _ => None
  | Subclass _ p b =>
      match cb_ready b with
      | Some f => Some (λ _, gets (λ w, f (ks w)))
      | None => resolve_ready p
      end
  end.

(** [self.ready] *)
Definition ready (self : instance) : M bool :=
  m ← lift (getattr "ready" (resolve_ready (cls self)));
  m self.

(** [s.replace(old, new)] for a pattern [old] of one character. *)
Fixpoint replace (old : ascii) (new s : string) : string :=
  match s with
  | EmptyString => EmptyString
  | String c s' =>
      if Ascii.eqb c old then new +:+ replace old new s'
      else String c (replace old new s')
  end.

(** ["Ana" + self.title.replace(" ", "") + "Check"] *)
Definition threadName (self : instance) : result string :=
  match title (cls self) with
  | Some t => Ok ("Ana" +:+ replace " "%char "" t +:+ "Check")
  | None => Err (AttributeError "'NoneType' object has no attribute 'replace'")
  end.

Definition on_back_clicked (self : instance) (window : handle) : M unit :=
  step (EvHide self) id;;
  step EvMainQuit id;;
  threadName ← lift (threadName self);
  thr ← threadMgr_get threadName;
  match thr with
  | Some thr => set_kill thr;; join thr
  | None => mret ()
  end;;
  target ← lift (getattr "check" (resolve_check (cls self)));
  new ← Thread_new threadName (BoundCheck self target);
  threadMgr_add new.

(** ** collect_spokes *)

(** A class found in a module: a spoke class of this hierarchy, or some
    other class, which may or may not have a [category] attribute. *)
Inductive pyobject :=
| PySpoke (c : pyclass)
| PyOther (name : string) (category : option (option classref)).

(** [obj.category]; the outer [None] is a class without that attribute. *)
Definition obj_category (obj : pyobject) : option (option classref) :=
  match obj with
  | PySpoke c => Some (category c)
  | PyOther _ cat => cat
  end.

(** Modelled from the spec: [collect] (pyanaconda.ui.gui, not in this
    module) scans all known classes of the modules under [subpath] and
    returns those that match the predicate.  [modules] gives the classes
    the scan finds. *)
Definition collect (modules : string → list pyobject) (subpath : string)
    (pred : pyobject → bool) : list pyobject :=
  List.filter pred (modules subpath).

(** [hasattr(obj, "category") and obj.category != None and
     obj.category.__name__ == category] *)
Definition collect_spokes_pred (category : string) (obj : pyobject) : bool :=
  match obj_category obj with
  | None => false
  | Some None => false
  | Some (Some c) => String.eqb (class_name c) category
  end.

Definition collect_spokes (modules : string → list pyobject) (category : string)
  : list pyobject :=
  collect modules "spokes" (collect_spokes_pred category).

(** ** Validation tasks alive *)

(** The number of live threads named [name]. *)
Definition live (name : string) (w : world) : nat :=
  length (filter (λ th, thr_alive th = true ∧ thr_name th = name) (threads w)).

(** What the thread manager maintains: a live thread is the one its name is
    registered to. *)
Definition registry_ok (w : world) : Prop :=
  ∀ i th, threads w !! i = Some th → thr_alive th = true →
          objs w !! thr_name th = Some i.

(** The registered thread named [name], if there is a live one, stops once
    it is asked to. *)
Definition cooperative (name : string) (w : world) : Prop :=
  ∀ i th, objs w !! name = Some i → threads w !! i = Some th →
          thr_alive th = true → im_func (thr_target th) ≠ Forever.

(** What a thread does by itself: its target returns. *)
Definition thread_exit (i : nat) (w : world) : world :=
  with_threads (alter finished i) w.

(** The worlds the installer reaches from [w0] by back clicks on spokes and
    by threads that finish. *)
Inductive reachable (w0 : world) : world → Prop :=
| reach_init : reachable w0 w0
| reach_click w self window :
    reachable w0 w → issubclass (cls self) NormalSpoke = true →
    reachable w0 (final (on_back_clicked self window w))
| reach_exit w i :
    reachable w0 w → reachable w0 (thread_exit i w).

(** ** The derived name in the words of the specification *)

(** Python's [isspace] on one character. *)
Definition isspace (c : ascii) : bool :=
  let n := nat_of_ascii c in
  Nat.eqb n 32 || (Nat.leb 9 n && Nat.leb n 13).

Fixpoint remove (p : ascii → bool) (s : string) : string :=
  match s with
  | EmptyString => EmptyString
  | String c s' => if p c then remove p s' else String c (remove p s')
  end.

(** "Screen title with whitespace removed, prefixed" (and suffixed). *)
Definition derived_name_spec (title : string) : string :=
  "Ana" +:+ remove isspace title +:+ "Check".

(** The title without its space characters. *)
Definition without_spaces (title : string) : string :=
  remove (λ c, Ascii.eqb c " ") title.

(** ** The flow around the hubs *)

(** An entry of the flow: a standalone spoke or a hub. *)
Inductive action :=
| RunSpoke (c : pyclass)
| RunHub (h : classref).

(** [priority] of a standalone spoke class. *)
Definition priority_of (c : pyclass) : Z := default 100%Z (priority c).

Definition by_priority (c1 c2 : pyclass) : Prop := (priority_of c1 ≤ priority_of c2)%Z.

#[global] Instance by_priority_dec : RelDecision by_priority.
Proof. intros c1 c2. unfold by_priority. apply _. Defined.

#[global] Instance by_priority_total : Total by_priority.
Proof. intros c1 c2. unfold by_priority. lia. Qed.

#[global] Instance by_priority_trans : Transitive by_priority.
Proof. intros c1 c2 c3. unfold by_priority. lia. Qed.

(** Modelled from the spec: the pre-hub actions of [hub] are the standalone
    spokes whose [preForHub] is that hub, lower [priority] first; the code
    that orders them is not in this module. *)
Definition pre_actions (spokes : list pyclass) (hub : classref) : list pyclass :=
  merge_sort by_priority (filter (λ c, preForHub c = Some (Some hub)) spokes).

(** Modelled from the spec: the post-hub actions of [hub], likewise. *)
Definition post_actions (spokes : list pyclass) (hub : classref) : list pyclass :=
  merge_sort by_priority (filter (λ c, postForHub c = Some (Some hub)) spokes).

(** Modelled from the spec: the whole flow goes through the hubs in order;
    around each hub come its pre-hub actions, the hub, its post-hub actions.
    The code that builds the flow is not in this module. *)
Fixpoint flow (hubs : list classref) (spokes : list pyclass) : list action :=
  match hubs with
  | [] => []
  | h :: hubs' =>
      (RunSpoke <$> pre_actions spokes h) ++ [RunHub h] ++
      (RunSpoke <$> post_actions spokes h) ++ flow hubs' spokes
  end.

Inductive flow_event :=
| Begin (a : action)
| End_ (a : action).

(** Modelled from the spec: the flow runs its actions one after the other,
    each to completion. *)
Fixpoint run_flow (f : list action) : list flow_event :=
  match f with
  | [] => []
  | a :: f' => Begin a :: End_ a :: run_flow f'
  end.

(** ** Both hub references set *)

(** [preForHub] and [postForHub] are both bound to a hub. *)
Definition both_hubs (c : pyclass) : bool :=
  match preForHub c, postForHub c with
  | Some (Some _), Some (Some _) => true
  | _, _ => false
  end.

(** ** What a back click is to do *)

(** The back-navigation handler, called on [self] in the world [w], returns;
    between the lookup and the new thread it has set the kill flag of the
    thread registered under the name of [self] and joined it, if there was
    one; it has created, registered under that name and started one new
    thread, whose target is [self.check]; one thread of that name is alive
    at the end, at most one of any name in every world of the run, and in
    every world of the run where the new thread is alive the old one has
    its kill flag set and is not alive. *)
Definition restarts_check (self : instance) (window : handle) (w : world) : Prop :=
  ∃ name target,
    threadName self = Ok name ∧ resolve_check (cls self) = Some target ∧
    let r := on_back_clicked self window w in
    let new := length (threads w) in
    let old := objs w !! name in
    out r = Return () ∧
    log (final r) = log w ++ [EvHide self; EvMainQuit; EvGet name] ++
                    match old with
                    | Some i => [EvKill i; EvJoin i]
                    | None => []
                    end ++ [EvThread new; EvAdd name new; EvStart new] ∧
    (∀ i th, old = Some i → threads w !! i = Some th →
             threads (final r) !! i
             = Some (MkThread (thr_name th) (thr_target th) true false)) ∧
    threads (final r) !! new = Some (MkThread name (BoundCheck self target) false true) ∧
    length (threads (final r)) = S (length (threads w)) ∧
    objs (final r) = <[name := new]> (objs w) ∧
    live name (final r) = 1 ∧
    Forall (λ s, ∀ n, (live n s ≤ 1)%nat) (visited r) ∧
    Forall (λ s, ∀ i tho thn,
                old = Some i → is_Some (threads w !! i) →
                threads s !! i = Some tho →
                threads s !! new = Some thn → thr_alive thn = true →
                thr_kill tho = true ∧ thr_alive tho = false) (visited r).

(** ** Sample classes and worlds *)

Definition Hub1 : classref := ClassRef 1 "SummaryHub".
Definition Hub2 : classref := ClassRef 2 "ProgressHub".
Definition HubA : classref := ClassRef 3 "HubA".
Definition HubB : classref := ClassRef 4 "HubB".

(** [class WelcomeSpoke(StandaloneSpoke): preForHub = Hub1; priority = 0;
     def apply(self): ...] *)
Definition WelcomeSpoke : pyclass :=
  Subclass "WelcomeSpoke" StandaloneSpoke
    (ClassBody None None (Some (Some "WELCOME")) (Some (Some Hub1)) None (Some 0%Z)
       (Some (λ d, Ok (<["lang" := "en_US"]> d))) None None None None).

(** A standalone spoke that sets both [preForHub] and [postForHub]. *)
Definition BothHubsSpoke : pyclass :=
  Subclass "BothHubsSpoke" StandaloneSpoke
    (ClassBody None None None (Some (Some Hub1)) (Some (Some Hub2)) None
       None None None None None).

(** [class FooSpoke(NormalSpoke): title = "Foo"] *)
Definition FooSpoke : pyclass :=
  Subclass "FooSpoke" NormalSpoke
    (ClassBody None None (Some (Some "Foo")) None None None None None None None None).

(** [class MinimalSpoke(NormalSpoke): pass] *)
Definition MinimalSpoke : pyclass := Subclass "MinimalSpoke" NormalSpoke pass.

(** A spoke whose [check] never looks at the kill flag and never returns. *)
Definition StuckSpoke : pyclass :=
  Subclass "StuckSpoke" NormalSpoke
    (ClassBody None None (Some (Some "Stuck")) None None None None None None
       (Some Forever) None).

(** A title with a tab in it. *)
Definition TabSpoke : pyclass :=
  Subclass "TabSpoke" NormalSpoke
    (ClassBody None None (Some (Some (String "a" (String "009" "b")))) None None None
       None None None None None).

Definition a_spoke (c : pyclass) : instance := Instance c 1 2 3 4 (Some None).

Definition empty_world : world := World ∅ [] ∅ [] [].

(** The worker [AnaFooCheck] is registered and running. *)
Definition foo_running : world :=
  World ∅ [MkThread "AnaFooCheck" (BoundCheck (a_spoke FooSpoke) Returns) false true]
    {["AnaFooCheck" := 0]} [] [].

(** The worker [AnaStuckCheck] is registered and running. *)
Definition stuck_running : world :=
  World ∅ [MkThread "AnaStuckCheck" (BoundCheck (a_spoke StuckSpoke) Forever) false true]
    {["AnaStuckCheck" := 0]} [] [].

(** Three spoke classes with category HubA, HubB and none. *)
Definition SpokeA : pyclass :=
  Subclass "SpokeA" NormalSpoke
    (ClassBody (Some (Some HubA)) None None None None None None None None None None).
Definition SpokeB : pyclass :=
  Subclass "SpokeB" NormalSpoke
    (ClassBody (Some (Some HubB)) None None None None None None None None None None).
Definition three_spokes (subpath : string) : list pyobject :=
  if String.eqb subpath "spokes"
  then [PySpoke SpokeA; PySpoke SpokeB; PySpoke MinimalSpoke; PyOther "Helper" None]
  else [].

(** A post-hub action of Hub1 and a pre-hub action of Hub2, both with
    priority 0. *)
Definition PostHub1 : pyclass :=
  Subclass "PostHub1" StandaloneSpoke
    (ClassBody None None None None (Some (Some Hub1)) (Some 0%Z) None None None None None).
Definition PreHub2 : pyclass :=
  Subclass "PreHub2" StandaloneSpoke
    (ClassBody None None None (Some (Some Hub2)) None (Some 0%Z) None None None None None).

(** ** Worlds without a thread that never returns *)

(** No thread runs a [check] that never returns. *)
Definition no_stuck (w : world) : Prop :=
  ∀ i th, threads w !! i = Some th → im_func (thr_target th) ≠ Forever.

(** ** More sample classes *)

(** A title that differs from "Foo" by spaces only. *)
Definition SpacedFooSpoke : pyclass :=
  Subclass "SpacedFooSpoke" NormalSpoke
    (ClassBody None None (Some (Some "F o o")) None None None None None None None None).

(** [class SubSpokeA(SpokeA): pass] *)
Definition SubSpokeA : pyclass := Subclass "SubSpokeA" SpokeA pass.

(** [class LateWelcomeSpoke(WelcomeSpoke): pass] *)
Definition LateWelcomeSpoke : pyclass := Subclass "LateWelcomeSpoke" WelcomeSpoke pass.

(** A module that imports the base class next to its own spokes. *)
Definition with_imports (subpath : string) : list pyobject :=
  if String.eqb subpath "spokes"
  then [PySpoke NormalSpoke; PySpoke SpokeA; PySpoke SubSpokeA]
  else [].

(** * Properties *)

(** ** Construction *)

Lemma construct_builtin (b : builtin) d dt p ic :
  construct b d dt p ic = Err (TypeError (__name__ b +:+ " is an abstract class")).
Proof. destruct b; reflexivity. Qed.

Lemma preForHub_standalone c :
  builtin_of c = StandaloneSpoke → is_Some (preForHub c).
Proof.
  induction c as [b | n p IH body]; simpl.
  - intros ->. eauto.
  - intros Hp. destruct (cb_preForHub body); eauto.
Qed.

Lemma postForHub_standalone c :
  builtin_of c = StandaloneSpoke → is_Some (postForHub c).
Proof.
  induction c as [b | n p IH body]; simpl.
  - intros ->. eauto.
  - intros Hp. destruct (cb_postForHub body); eauto.
Qed.

Lemma Spoke_init_subclass n parent body sel d dt p ic :
  Spoke___init__ (Instance (Subclass n parent body) 0 0 0 0 sel) d dt p ic
  = Ok (Instance (Subclass n parent body) d dt p ic sel).
Proof. reflexivity. Qed.

(** A subclass of [StandaloneSpoke] gets through [StandaloneSpoke.__init__]
    exactly when it does not bind both hub references. *)
Lemma construct_standalone_subclass n parent body d dt p ic :
  let c := Subclass n parent body in
  builtin_of c = StandaloneSpoke →
  construct c d dt p ic =
    if both_hubs c
    then Err (AttributeError ("StandaloneSpoke instance " +:+ str_of (blank c) +:+
                " may not have both preForHub and postForHub set"))
    else Ok (Instance c d dt p ic None).
Proof.
  intros c Hc. unfold construct. rewrite Hc.
  destruct (preForHub_standalone c Hc) as [pre Hpre].
  destruct (postForHub_standalone c Hc) as [post Hpost].
  unfold StandaloneSpoke___init__, both_hubs.
  change (class_is (cls (blank c)) StandaloneSpoke) with false.
  change (cls (blank c)) with c. rewrite Hpre, Hpost. cbn [getattr].
  destruct pre as [h1|], post as [h2|]; reflexivity.
Qed.

(** C2, as amended: constructing one of the four base classes directly fails
    with the abstract-class error (a [TypeError], the specification's
    AbstractInstantiationError).  Constructing a subclass succeeds and
    stores the four references, except for a subclass of [StandaloneSpoke]
    that binds both [preForHub] and [postForHub]: that construction fails
    with the specification's InvalidConfigurationError. *)
Theorem construct_abstract_or_subclass :
  (∀ (b : builtin) d dt p ic,
      ∃ e, construct b d dt p ic = Err e ∧ AbstractInstantiationError e) ∧
  (∀ n parent body d dt p ic,
      let c := Subclass n parent body in
      if issubclass c StandaloneSpoke && both_hubs c
      then ∃ e, construct c d dt p ic = Err e ∧ InvalidConfigurationError e
      else construct c d dt p ic =
             Ok (Instance c d dt p ic
                   (if issubclass c NormalSpoke then Some None else None))).
Proof.
  split.
  - intros b d dt p ic. rewrite construct_builtin. eexists; split; [done|].
    by exists (__name__ b).
  - intros n parent body d dt p ic c.
    pose proof (construct_standalone_subclass n parent body d dt p ic) as Hst.
    cbv zeta in Hst. fold c in Hst.
    destruct (builtin_of c) eqn:Hc; unfold issubclass; rewrite Hc.
    + unfold construct. rewrite Hc. reflexivity.
    + rewrite bool_decide_true by done. cbn [andb].
      rewrite bool_decide_false by done.
      rewrite Hst by done. destruct (both_hubs c); [|done].
      eexists; split; [done|]. by eexists.
    + rewrite bool_decide_false by done. rewrite bool_decide_true by done.
      cbn [andb]. unfold construct. rewrite Hc. reflexivity.
    + rewrite !bool_decide_false by done.
      cbn [andb]. unfold construct. rewrite Hc. reflexivity.
Qed.

(** C2, as stated, fails: [BothHubsSpoke] is a concrete subclass, of
    [StandaloneSpoke], and its construction does not succeed. *)
Lemma construct_proper_subclass_fails :
  issubclass BothHubsSpoke StandaloneSpoke = true ∧
  class_is BothHubsSpoke StandaloneSpoke = false ∧
  ¬ ∃ self, construct BothHubsSpoke 1 2 3 4 = Ok self.
Proof.
  split; [reflexivity|]. split; [reflexivity|].
  intros [self H]. vm_compute in H. discriminate.
Qed.

(** C3, as amended: for every construction of a subclass of
    [StandaloneSpoke], when both [preForHub] and [postForHub] are bound to a
    hub the construction fails with the specification's
    InvalidConfigurationError (an [AttributeError]), and when one of them or
    neither is, it succeeds. *)
Theorem construct_standalone_hubs n parent body d dt p ic :
  let c := Subclass n parent body in
  issubclass c StandaloneSpoke = true →
  match preForHub c, postForHub c with
  | Some (Some _), Some (Some _) =>
      ∃ e, construct c d dt p ic = Err e ∧ InvalidConfigurationError e
  | _, _ => construct c d dt p ic = Ok (Instance c d dt p ic None)
  end.
Proof.
  intros c Hsub. unfold issubclass in Hsub. apply bool_decide_eq_true in Hsub.
  pose proof (construct_standalone_subclass n parent body d dt p ic Hsub) as H.
  cbv zeta in H. fold c in H. unfold both_hubs in H.
  destruct (preForHub c) as [[h1|]|], (postForHub c) as [[h2|]|]; try exact H.
  eexists; split; [exact H|]. by eexists.
Qed.

Lemma construct_standalone_hubs_witness :
  construct WelcomeSpoke 1 2 3 4 = Ok (Instance WelcomeSpoke 1 2 3 4 None) ∧
  ∃ e, construct BothHubsSpoke 1 2 3 4 = Err e ∧ InvalidConfigurationError e.
Proof.
  split.
  - unfold WelcomeSpoke.
    match goal with
    | |- construct (Subclass ?n ?parent ?body) _ _ _ _ = _ =>
        exact (construct_standalone_hubs n parent body 1 2 3 4 eq_refl)
    end.
  - unfold BothHubsSpoke.
    match goal with
    | |- ∃ e, construct (Subclass ?n ?parent ?body) _ _ _ _ = _ ∧ _ =>
        exact (construct_standalone_hubs n parent body 1 2 3 4 eq_refl)
    end.
Defined.

(** C3, as stated, fails: constructing [StandaloneSpoke] itself is a
    construction where neither [preForHub] nor [postForHub] is set, and it
    does not succeed. *)
Lemma construct_standalone_neither_fails :
  preForHub StandaloneSpoke = Some None ∧
  postForHub StandaloneSpoke = Some None ∧
  construct StandaloneSpoke 1 2 3 4 = Err (TypeError "StandaloneSpoke is an abstract class").
Proof. repeat split. Qed.

(** ** Defaults of the base classes *)

Lemma resolve_completed_default c :
  overrides cb_completed c = false → resolve_completed c = Spoke_completed.
Proof.
  induction c as [b | n p IH body]; simpl; [done|].
  destruct (cb_completed body); [done | exact IH].
Qed.

Lemma resolve_ready_default c :
  builtin_of c = NormalSpoke → overrides cb_ready c = false →
  resolve_ready c = Some NormalSpoke_ready.
Proof.
  induction c as [b | n p IH body]; simpl.
  - by intros ->.
  - destruct (cb_ready body); [done | exact IH].
Qed.

Lemma resolve_apply_default c :
  overrides cb_apply c = false → resolve_apply c = Spoke_apply.
Proof.
  induction c as [b | n p IH body]; simpl; [done|].
  destruct (cb_apply body); [done | exact IH].
Qed.

Lemma resolve_status_default c :
  overrides cb_status c = false → resolve_status c = Spoke_status.
Proof.
  induction c as [b | n p IH body]; simpl; [done|].
  destruct (cb_status body); [done | exact IH].
Qed.

(** C7: on an instance of a subclass of [NormalSpoke] in which nothing
    overrides [completed] and [ready], [completed] is false and [ready] is
    true, and reading them changes nothing. *)
Theorem NormalSpoke_defaults self w :
  issubclass (cls self) NormalSpoke = true →
  overrides cb_completed (cls self) = false →
  overrides cb_ready (cls self) = false →
  completed self w = Run (Return false) w [] ∧
  ready self w = Run (Return true) w [].
Proof.
  intros Hsub Hc Hr. apply bool_decide_eq_true in Hsub. split.
  - unfold completed. by rewrite resolve_completed_default.
  - unfold ready. by rewrite resolve_ready_default.
Qed.

Lemma NormalSpoke_defaults_witness :
  construct MinimalSpoke 1 2 3 4 = Ok (a_spoke MinimalSpoke) ∧
  completed (a_spoke MinimalSpoke) empty_world = Run (Return false) empty_world [] ∧
  ready (a_spoke MinimalSpoke) empty_world = Run (Return true) empty_world [].
Proof.
  split; [reflexivity|].
  apply (NormalSpoke_defaults (a_spoke MinimalSpoke) empty_world); reflexivity.
Defined.

(** C8: on an instance whose class does not override them, [apply()] fails
    with [NotImplementedError] and so does reading [status]; neither changes
    the shared data. *)
Theorem Spoke_apply_status_not_implemented self w :
  (overrides cb_apply (cls self) = false →
     out (apply self w) = Raise NotImplementedError ∧
     ks (final (apply self w)) = ks w) ∧
  (overrides cb_status (cls self) = false →
     out (status self w) = Raise NotImplementedError ∧
     ks (final (status self w)) = ks w).
Proof.
  split; intros H.
  - unfold apply. rewrite resolve_apply_default by done. done.
  - unfold status. rewrite resolve_status_default by done. done.
Qed.

Lemma Spoke_apply_status_not_implemented_witness :
  out (apply (a_spoke MinimalSpoke) empty_world) = Raise NotImplementedError ∧
  out (status (a_spoke MinimalSpoke) empty_world) = Raise NotImplementedError.
Proof.
  destruct (Spoke_apply_status_not_implemented (a_spoke MinimalSpoke) empty_world)
    as [Ha Hs].
  split; [apply Ha | apply Hs]; reflexivity.
Defined.

(** ** The continue hook *)

(** A resolved [apply] raises and leaves the world as it is, or returns and
    changes the shared data only. *)
Lemma resolve_apply_cases c self w :
  (∃ e, resolve_apply c self w = Run (Raise e) w []) ∨
  (∃ d, resolve_apply c self w = Run (Return ()) (with_ks d w) [with_ks d w]).
Proof.
  induction c as [b | n p IH body]; simpl.
  - left. by exists NotImplementedError.
  - destruct (cb_apply body) as [f|]; [|exact IH].
    unfold run_body. destruct (f (ks w)) as [d|e]; [right|left]; eauto.
Qed.

(** C5: the continue hook enters [apply()] first.  If [apply()] raises, the
    callback is not entered at all; if it returns, the callback is entered
    next, once, and runs on the data [apply()] left. *)
Theorem on_continue_apply_before_callback self cb w :
  let r := _on_continue_clicked self cb w in
  (∃ e, out (apply self w) = Raise e ∧ out r = Raise e ∧
        log (final r) = log w ++ [EvApply self]) ∨
  (∃ d, out (apply self w) = Return () ∧ ks (final (apply self w)) = d ∧
        log (final r) = log w ++ [EvApply self; EvCallback] ∧
        match cb d with
        | Ok d' => out r = Return () ∧ ks (final r) = d'
        | Err e => out r = Raise e ∧ ks (final r) = d
        end).
Proof.
  intros r. subst r. unfold _on_continue_clicked, apply, call.
  destruct (resolve_apply_cases (cls self) self (tell (EvApply self) w))
    as [[e He] | [d He]].
  - left. exists e. unfold mbind, M_bind, step. cbn. rewrite He. cbn. done.
  - right. exists d. unfold mbind, M_bind, step, run_body. cbn. rewrite He. cbn.
    split; [done|]. split; [done|].
    destruct (cb d) as [d'|e]; cbn; rewrite <- app_assoc; done.
Qed.

(** The handler [register_event_cb] connects for "continue" is that hook. *)
Lemma register_event_cb_continue self cb w :
  handlers (final (register_event_cb self "continue" cb w))
  = handlers w ++ [("continue-clicked", lambda_continue self cb)] ∧
  invoke (lambda_continue self cb) = _on_continue_clicked self cb.
Proof. split; reflexivity. Qed.

(** The handler connected for "quit" calls the callback and does not
    apply. *)
Lemma register_event_cb_quit self cb w :
  handlers (final (register_event_cb self "quit" cb w))
  = handlers w ++ [("quit-clicked", lambda_quit cb)] ∧
  invoke (lambda_quit cb) = call cb.
Proof. split; reflexivity. Qed.

(** The recording double of the specification: [apply] and the callback
    each leave a mark in the shared data, and the callback sees the mark of
    [apply]. *)
Example on_continue_recording :
  let self := Instance WelcomeSpoke 1 2 3 4 None in
  let cb : callback := λ d, Ok (<["advanced" := default "no" (d !! "lang")]> d) in
  let r := _on_continue_clicked self cb empty_world in
  out r = Return () ∧
  log (final r) = [EvApply self; EvCallback] ∧
  ks (final r) !! "advanced" = Some "en_US".
Proof. repeat split. Qed.

(** ** Discovery by category *)

Lemma collect_spokes_pred_spec category obj :
  collect_spokes_pred category obj = true ↔
  ∃ c, obj_category obj = Some (Some c) ∧ class_name c = category.
Proof.
  unfold collect_spokes_pred.
  destruct (obj_category obj) as [[c|]|].
  - rewrite String.eqb_eq. split.
    + intros H. by exists c.
    + intros (c' & [= <-] & H). done.
  - split; [done | by intros (c & ? & _)].
  - split; [done | by intros (c & ? & _)].
Qed.

(** C4: [collect_spokes] returns exactly the scanned classes that have a
    [category] attribute whose value is not [None] and is a class named like
    the requested category; when no scanned class is such, the result is
    empty. *)
Theorem collect_spokes_exact modules category :
  (∀ obj, In obj (collect_spokes modules category) ↔
          In obj (modules "spokes") ∧
          ∃ c, obj_category obj = Some (Some c) ∧ class_name c = category) ∧
  ((∀ obj c, In obj (modules "spokes") → obj_category obj = Some (Some c) →
             class_name c ≠ category) →
   collect_spokes modules category = []).
Proof.
  split.
  - intros obj. unfold collect_spokes, collect.
    rewrite filter_In, collect_spokes_pred_spec. done.
  - intros Hnone. unfold collect_spokes, collect.
    induction (modules "spokes") as [|obj l IH]; [done|]. simpl.
    destruct (collect_spokes_pred category obj) eqn:Hp.
    + apply collect_spokes_pred_spec in Hp as (c & Hc & Hn).
      destruct (Hnone obj c); [by left | done | done].
    + apply IH. intros obj' c Hin. apply Hnone. by right.
Qed.

Lemma collect_spokes_exact_witness :
  collect_spokes three_spokes "HubC" = [].
Proof.
  apply (collect_spokes_exact three_spokes "HubC").
  intros obj c Hin Hc.
  cbn in Hin. destruct Hin as [<- | [<- | [<- | [<- | []]]]];
    cbn in Hc; try discriminate; injection Hc as <-; discriminate.
Defined.

(** The scenario of the specification: categories HubA, HubB and none. *)
Example collect_spokes_three :
  collect_spokes three_spokes "HubA" = [PySpoke SpokeA] ∧
  collect_spokes three_spokes "HubB" = [PySpoke SpokeB] ∧
  collect_spokes three_spokes "Unrelated" = [].
Proof. repeat split. Qed.

(** ** The name of the check thread *)

Lemma replace_space s : replace " " "" s = without_spaces s.
Proof.
  unfold without_spaces. induction s as [|c s IH]; simpl; [done|].
  destruct (Ascii.eqb c " "); by rewrite IH.
Qed.

Lemma remove_ext (p q : ascii → bool) s :
  (∀ c, In c (list_ascii_of_string s) → p c = q c) → remove p s = remove q s.
Proof.
  induction s as [|c s IH]; simpl; [done|]. intros H.
  rewrite (H c) by (by left). rewrite IH; [done|]. intros c' Hc'. apply H. by right.
Qed.

(** C6, as amended: for a spoke whose title is a string, the name of its
    check thread is "Ana", then the title without its space characters (all
    other characters kept, in order), then "Check"; the title "Foo" gives
    "AnaFooCheck"; and on a title whose only whitespace is spaces this is
    the name the specification describes. *)
Theorem threadName_of_title self t :
  title (cls self) = Some t →
  threadName self = Ok ("Ana" +:+ without_spaces t +:+ "Check") ∧
  (t = "Foo" → threadName self = Ok "AnaFooCheck") ∧
  ((∀ c, In c (list_ascii_of_string t) → isspace c = true → c = " "%char) →
   threadName self = Ok (derived_name_spec t)).
Proof.
  intros Ht. unfold threadName. rewrite Ht, replace_space. split; [done|]. split.
  - by intros ->.
  - intros Hws. unfold derived_name_spec, without_spaces.
    rewrite (remove_ext (λ c, Ascii.eqb c " ") isspace); [done|].
    intros c Hc. destruct (isspace c) eqn:Hsp.
    + rewrite (Hws c Hc Hsp). reflexivity.
    + apply Ascii.eqb_neq. intros ->. discriminate.
Qed.

Lemma threadName_of_title_witness :
  threadName (a_spoke FooSpoke) = Ok "AnaFooCheck".
Proof.
  destruct (threadName_of_title (a_spoke FooSpoke) "Foo" eq_refl) as (_ & HFoo & _).
  exact (HFoo eq_refl).
Defined.

(** C6, as stated, fails: the tab of the title "a<TAB>b" is whitespace and
    stays in the name. *)
Lemma threadName_keeps_tab :
  threadName (a_spoke TabSpoke) = Ok (String "A" (String "n" (String "a"
     (String "a" (String "009" (String "b" "Check")))))) ∧
  threadName (a_spoke TabSpoke)
    ≠ Ok (derived_name_spec (String "a" (String "009" "b"))).
Proof. split; [reflexivity | discriminate]. Qed.

(** ** Back navigation *)

(** Without a title the run stops at the thread name. *)
Lemma on_back_clicked_untitled_run self window w :
  title (cls self) = None →
  on_back_clicked self window w
  = Run (Raise (AttributeError "'NoneType' object has no attribute 'replace'"))
      (tell EvMainQuit (tell (EvHide self) w))
      [tell (EvHide self) w; tell EvMainQuit (tell (EvHide self) w)].
Proof.
  intros Ht. unfold on_back_clicked, threadName. rewrite Ht. reflexivity.
Qed.

(** C10: on a spoke whose title is [None], [on_back_clicked] raises while
    it computes the thread name, after hiding the window and leaving the
    main loop: no thread is looked up, killed, created or started, and the
    threads and the registry are the same in every world of the run. *)
Theorem on_back_clicked_untitled self window w :
  title (cls self) = None →
  let r := on_back_clicked self window w in
  out r = Raise (AttributeError "'NoneType' object has no attribute 'replace'") ∧
  log (final r) = log w ++ [EvHide self; EvMainQuit] ∧
  threads (final r) = threads w ∧ objs (final r) = objs w ∧
  Forall (λ s, threads s = threads w ∧ objs s = objs w) (visited r).
Proof.
  intros Ht r. subst r. rewrite on_back_clicked_untitled_run by done.
  cbn. rewrite <- app_assoc. repeat split. repeat constructor.
Qed.

Lemma on_back_clicked_untitled_witness :
  let r := on_back_clicked (a_spoke MinimalSpoke) 0 foo_running in
  out r = Raise (AttributeError "'NoneType' object has no attribute 'replace'") ∧
  log (final r) = [EvHide (a_spoke MinimalSpoke); EvMainQuit] ∧
  threads (final r) = threads foo_running ∧ objs (final r) = objs foo_running ∧
  Forall (λ s, threads s = threads foo_running ∧ objs s = objs foo_running) (visited r).
Proof.
  apply (on_back_clicked_untitled (a_spoke MinimalSpoke) 0 foo_running).
  reflexivity.
Defined.

(** *** The registry invariant *)

Lemma filter_length_le_1 {A} (P : A → Prop) `{∀ x, Decision (P x)} (l : list A) :
  (∀ i j x y, l !! i = Some x → l !! j = Some y → P x → P y → i = j) →
  (length (filter P l) ≤ 1)%nat.
Proof.
  induction l as [|a l IH]; intros Huniq; [simpl; lia|].
  rewrite filter_cons. destruct (decide (P a)) as [Ha|Ha].
  - assert (filter P l = []) as ->; [|simpl; lia].
    destruct (filter P l) as [|y l'] eqn:Hf; [done|].
    assert (y ∈ filter P l) as Hy by (rewrite Hf; left).
    apply list_elem_of_filter in Hy as [Py Hy].
    apply list_elem_of_lookup in Hy as [j Hj].
    by specialize (Huniq 0 (S j) a y eq_refl Hj Ha Py).
  - apply IH. intros i j x y Hi Hj Px Py.
    by specialize (Huniq (S i) (S j) x y Hi Hj Px Py) as [= ->].
Qed.

Lemma filter_length_ge_1 {A} (P : A → Prop) `{∀ x, Decision (P x)} (l : list A) i x :
  l !! i = Some x → P x → (1 ≤ length (filter P l))%nat.
Proof.
  intros Hi Px.
  assert (x ∈ filter P l) as Hin.
  { apply list_elem_of_filter. split; [done|]. apply list_elem_of_lookup. eauto. }
  destruct (filter P l); [by apply not_elem_of_nil in Hin | simpl; lia].
Qed.

(** Under the invariant at most one thread of each name is alive. *)
Lemma registry_ok_live w : registry_ok w → ∀ n, (live n w ≤ 1)%nat.
Proof.
  intros Hok n. unfold live. apply filter_length_le_1.
  intros i j x y Hi Hj [Hx Hnx] [Hy Hny].
  pose proof (Hok i x Hi Hx) as H1. pose proof (Hok j y Hj Hy) as H2.
  rewrite Hnx in H1. rewrite Hny in H2. congruence.
Qed.

Lemma registry_ok_tell e w : registry_ok w → registry_ok (tell e w).
Proof. done. Qed.

Lemma registry_ok_set_kill i w :
  registry_ok w →
  registry_ok (with_threads (alter killed i) w).
Proof.
  intros Hok j th. cbn. intros Hj Halive.
  destruct (decide (i = j)) as [->|Hne].
  - rewrite list_lookup_alter_eq in Hj.
    destruct (threads w !! j) as [th0|] eqn:H0; [|done].
    injection Hj as <-. cbn in *. by apply Hok.
  - rewrite list_lookup_alter_ne in Hj by done. by apply Hok.
Qed.

Lemma registry_ok_dead i w :
  registry_ok w →
  registry_ok (with_threads (alter finished i) w).
Proof.
  intros Hok j th. cbn. intros Hj Halive.
  destruct (decide (i = j)) as [->|Hne].
  - rewrite list_lookup_alter_eq in Hj.
    destruct (threads w !! j) as [th0|] eqn:H0; [|done].
    injection Hj as <-. done.
  - rewrite list_lookup_alter_ne in Hj by done. by apply Hok.
Qed.

Lemma registry_ok_new n tg w :
  registry_ok w →
  registry_ok (with_threads (λ ts, ts ++ [MkThread n tg false false]) w).
Proof.
  intros Hok j th. cbn. intros Hj Halive.
  apply lookup_app_Some in Hj as [Hj | [_ Hj]]; [by apply Hok|].
  apply list_lookup_singleton_Some in Hj as [_ <-]. done.
Qed.

Lemma registry_ok_register n new w :
  registry_ok w →
  (∀ i th, threads w !! i = Some th → thr_alive th = true → thr_name th ≠ n) →
  registry_ok (with_objs <[n := new]> w).
Proof.
  intros Hok Hfree j th. cbn. intros Hj Halive.
  rewrite lookup_insert_ne; [by apply Hok|].
  intros ->. by eapply Hfree.
Qed.

Lemma registry_ok_start new th w :
  registry_ok w → threads w !! new = Some th → objs w !! thr_name th = Some new →
  registry_ok (with_threads (alter running new) w).
Proof.
  intros Hok Hnew Hreg j th'. cbn. intros Hj Halive.
  destruct (decide (new = j)) as [->|Hne].
  - rewrite list_lookup_alter_eq, Hnew in Hj. injection Hj as <-. done.
  - rewrite list_lookup_alter_ne in Hj by done. by apply Hok.
Qed.

(** A thread that finishes keeps the invariant. *)
Lemma registry_ok_thread_exit i w : registry_ok w → registry_ok (thread_exit i w).
Proof. apply registry_ok_dead. Qed.

(** *** The run of the handler *)

Lemma bind_Return {A B} (m : M A) (f : A → M B) w a w' v :
  m w = Run (Return a) w' v →
  (m ≫= f) w = Run (out (f a w')) (final (f a w')) (v ++ visited (f a w')).
Proof. intros H. unfold mbind, M_bind. rewrite H. reflexivity. Qed.

Lemma bind_Hang {A B} (m : M A) (f : A → M B) w w' v :
  m w = Run Hang w' v → (m ≫= f) w = Run Hang w' v.
Proof. intros H. unfold mbind, M_bind. rewrite H. reflexivity. Qed.

(** Killing and joining a thread that stops returns, with the flag set
    first and the thread not alive after. *)
Lemma kill_join_run i w :
  (∀ th, threads w !! i = Some th → thr_alive th = true →
         im_func (thr_target th) ≠ Forever) →
  let wk := tell (EvKill i) (with_threads (alter killed i) w) in
  let wj := tell (EvJoin i) (with_threads (alter finished i) wk) in
  (set_kill i ≫= λ _, join i) w = Run (Return ()) wj [wk; wj].
Proof.
  intros Hcoop wk wj.
  rewrite (bind_Return _ _ w () wk [wk]) by reflexivity.
  assert (blocks i wk = false) as Hb.
  { unfold blocks, wk. cbn. rewrite list_lookup_alter_eq.
    destruct (threads w !! i) as [th|] eqn:Hth; [|done]. cbn.
    destruct (thr_alive th) eqn:Ha; [|done]. cbn.
    specialize (Hcoop th eq_refl Ha). unfold exits. cbn.
    destruct (im_func (thr_target th)); done. }
  unfold join. rewrite Hb. reflexivity.
Qed.

(** Creating, registering and starting the new thread. *)
Lemma restart_run name target w :
  let new := length (threads w) in
  let w4 := tell (EvThread new)
              (with_threads (λ ts, ts ++ [MkThread name target false false]) w) in
  let w5 := tell (EvAdd name new) (with_objs <[name := new]> w4) in
  let w6 := tell (EvStart new) (with_threads (alter running new) w5) in
  (Thread_new name target ≫= λ new, threadMgr_add new) w
  = Run (Return ()) w6 [w4; w5; w6].
Proof.
  intros new w4 w5 w6.
  rewrite (bind_Return _ _ w new w4 [w4]) by reflexivity.
  unfold threadMgr_add.
  rewrite (bind_Return _ _ w4 (Some (MkThread name target false false)) w4 []).
  - reflexivity.
  - unfold gets. f_equal. f_equal. unfold w4. cbn. apply list_lookup_middle. done.
Qed.

(** The whole run, for a spoke with a title whose registered thread, if it
    is alive, stops when asked to. *)
Lemma on_back_clicked_run self window w name target :
  threadName self = Ok name → resolve_check (cls self) = Some target →
  cooperative name w →
  let w1 := tell (EvHide self) w in
  let w2 := tell EvMainQuit w1 in
  let w3 := tell (EvGet name) w2 in
  let wk i := tell (EvKill i) (with_threads (alter killed i) w3) in
  let wj i := tell (EvJoin i) (with_threads (alter finished i) (wk i)) in
  let mid := match objs w !! name with Some i => wj i | None => w3 end in
  let new := length (threads w) in
  let w4 := tell (EvThread new)
              (with_threads
                 (λ ts, ts ++ [MkThread name (BoundCheck self target) false false]) mid) in
  let w5 := tell (EvAdd name new) (with_objs <[name := new]> w4) in
  let w6 := tell (EvStart new) (with_threads (alter running new) w5) in
  on_back_clicked self window w
  = Run (Return ()) w6
      ([w1; w2; w3] ++
       match objs w !! name with Some i => [wk i; wj i] | None => [] end ++
       [w4; w5; w6]).
Proof.
  intros Hname Hcheck Hcoop w1 w2 w3 wk wj mid new w4 w5 w6.
  unfold on_back_clicked. rewrite Hname, Hcheck. cbn [lift getattr].
  rewrite (bind_Return _ _ w () w1 [w1]) by reflexivity.
  rewrite (bind_Return _ _ w1 () w2 [w2]) by reflexivity.
  rewrite (bind_Return _ _ w2 name w2 []) by reflexivity.
  rewrite (bind_Return _ _ w2 (objs w !! name) w3 [w3]) by reflexivity.
  assert (length (threads mid) = new) as Hlen.
  { unfold mid. destruct (objs w !! name); [|done].
    cbn. by rewrite !length_alter. }
  assert ((match objs w !! name with
           | Some thr => set_kill thr ≫= λ _, join thr
           | None => mret ()
           end) w3
          = Run (Return ()) mid
              match objs w !! name with Some i => [wk i; wj i] | None => [] end)
    as Hmid.
  { unfold mid. destruct (objs w !! name) as [i|] eqn:Hi; [|reflexivity].
    apply kill_join_run. intros th Hth Ha. by apply (Hcoop i th). }
  rewrite (bind_Return _ _ w3 () mid _ Hmid).
  rewrite (bind_Return _ _ mid target mid []) by reflexivity.
  rewrite (restart_run name (BoundCheck self target) mid). rewrite Hlen.
  reflexivity.
Qed.

Lemma resolve_check_NormalSpoke c :
  builtin_of c = NormalSpoke → is_Some (resolve_check c).
Proof.
  induction c as [b | n p IH body]; simpl.
  - intros ->. eauto.
  - intros Hp. destruct (cb_check body); eauto.
Qed.

(** Once the registered thread has been joined no live thread has the name:
    the name is free for a new registration. *)
Lemma name_free_after_join name w ts :
  registry_ok w →
  match objs w !! name with
  | Some i => ts = alter finished i (alter killed i (threads w))
  | None => ts = threads w
  end →
  ∀ j th, ts !! j = Some th → thr_alive th = true → thr_name th ≠ name.
Proof.
  intros Hok Hts j th Hj Ha Hn.
  destruct (objs w !! name) as [i|] eqn:Hold; subst ts.
  - destruct (decide (i = j)) as [->|Hne].
    + rewrite list_lookup_alter_eq in Hj.
      destruct (alter killed j (threads w) !! j); [|done].
      injection Hj as <-. done.
    + rewrite !list_lookup_alter_ne in Hj by done.
      pose proof (Hok j th Hj Ha) as H. rewrite Hn in H. congruence.
  - pose proof (Hok j th Hj Ha) as H. rewrite Hn in H. congruence.
Qed.

(** The handler on a titled spoke whose registered thread stops when asked
    to: what it does, and that it leaves the invariant in place. *)
Lemma on_back_clicked_restarts self window w t :
  issubclass (cls self) NormalSpoke = true →
  title (cls self) = Some t →
  registry_ok w →
  (∀ name, threadName self = Ok name → cooperative name w) →
  restarts_check self window w ∧
  registry_ok (final (on_back_clicked self window w)).
Proof.
  intros Hsub Ht Hok Hcoop. apply bool_decide_eq_true in Hsub.
  destruct (resolve_check_NormalSpoke _ Hsub) as [target Hcheck].
  assert (∃ name, threadName self = Ok name) as [name Hname].
  { unfold threadName. rewrite Ht. eauto. }
  specialize (Hcoop name Hname).
  pose proof (on_back_clicked_run self window w name target Hname Hcheck Hcoop) as Hrun.
  cbv beta zeta in Hrun.
  pose proof (λ ts, name_free_after_join name w ts Hok) as Hfree.
  set (th0 := MkThread name (BoundCheck self target) false false) in *.
  set (new := length (threads w)) in *.
  set (w1 := tell (EvHide self) w) in *.
  set (w2 := tell EvMainQuit w1) in *.
  set (w3 := tell (EvGet name) w2) in *.
  assert (registry_ok w3) as Hok3 by done.
  (* the worlds in between, whether a thread was registered or not *)
  set (mid := match objs w !! name with
              | Some i => tell (EvJoin i) (with_threads (alter finished i)
                            (tell (EvKill i) (with_threads (alter killed i) w3)))
              | None => w3
              end) in *.
  assert (registry_ok mid ∧ objs mid = objs w ∧ length (threads mid) = new ∧
          match objs w !! name with
          | Some i => threads mid = alter finished i (alter killed i (threads w))
          | None => threads mid = threads w
          end) as (Hokm & Hobjs & Hlen & Hthreads).
  { unfold mid. destruct (objs w !! name) as [i|].
    - split; [|split; [done|split; [cbn; by rewrite !length_alter|done]]].
      apply registry_ok_tell, registry_ok_dead, registry_ok_tell.
      by apply registry_ok_set_kill.
    - done. }
  specialize (Hfree (threads mid) Hthreads).
  set (w4 := tell (EvThread new) (with_threads (λ ts, ts ++ [th0]) mid)) in *.
  set (w5 := tell (EvAdd name new) (with_objs <[name := new]> w4)) in *.
  set (w6 := tell (EvStart new) (with_threads (alter running new) w5)) in *.
  assert (registry_ok w4) as Hok4 by (by apply registry_ok_tell, registry_ok_new).
  assert (threads w4 !! new = Some th0) as Hnew4.
  { unfold w4. cbn. rewrite <- Hlen. by apply list_lookup_middle. }
  assert (registry_ok w5) as Hok5.
  { apply registry_ok_tell, registry_ok_register; [done|].
    intros j th Hj Ha. cbn in Hj.
    apply lookup_app_Some in Hj as [Hj | [_ Hj]]; [by eapply Hfree|].
    apply list_lookup_singleton_Some in Hj as [_ <-]. done. }
  assert (registry_ok w6) as Hok6.
  { apply registry_ok_tell, (registry_ok_start new th0); [done|done|].
    cbn. by rewrite lookup_insert_eq. }
  assert (threads w6 !! new = Some (running th0)) as Hnew6.
  { change (threads w6) with (alter running new (threads w4)).
    by rewrite list_lookup_alter_eq, Hnew4. }
  rewrite Hrun. cbn [final out visited]. split; [|done].
  exists name, target. split; [done|]. split; [done|].
  fold new. cbn zeta. rewrite Hrun. cbn [final out visited].
  split; [done|]. split.
  { (* the log *)
    unfold w6, w5, w4, mid, w3, w2, w1. destruct (objs w !! name) as [i|]; cbn;
      repeat rewrite <- app_assoc; done. }
  split.
  { (* the old thread *)
    intros i th Hi Hth. unfold w6, w5, w4. cbn.
    assert (i < new) as Hlt by (by eapply lookup_lt_Some).
    rewrite list_lookup_alter_ne by lia.
    rewrite lookup_app_l by lia.
    rewrite Hi in Hthreads. rewrite Hthreads.
    rewrite !list_lookup_alter_eq, Hth. done. }
  split; [exact Hnew6|]. split.
  { unfold w6, w5, w4. cbn. rewrite length_alter, length_app, Hlen. cbn. lia. }
  split.
  { unfold w6, w5, w4. cbn. by rewrite Hobjs. }
  split.
  { apply Nat.le_antisymm; [by apply registry_ok_live|].
    unfold live. by eapply filter_length_ge_1. }
  split.
  { (* at most one live thread of each name, all along *)
    assert (Forall registry_ok
              ([w1; w2; w3] ++
               match objs w !! name with
               | Some i => [tell (EvKill i) (with_threads (alter killed i) w3); mid]
               | None => []
               end ++ [w4; w5; w6])) as Hall.
    { destruct (objs w !! name) as [i|] eqn:Hi; cbn [app];
        repeat (apply Forall_cons; split); try done; try apply Forall_nil.
      apply registry_ok_tell. by apply registry_ok_set_kill. }
    unfold mid in Hall at 1.
    destruct (objs w !! name) as [i|] eqn:Hi;
      (eapply Forall_impl; [exact Hall|]); intros s Hs; by apply registry_ok_live. }
  (* the old thread is dead wherever the new one is alive *)
  assert (∀ s, length (threads s) = new →
               ∀ thn, threads s !! new = Some thn → thr_alive thn = true → False) as Hshort.
  { intros s Hs thn Hn _. apply lookup_lt_Some in Hn. lia. }
  assert (∀ s, threads s = threads w4 →
               ∀ thn, threads s !! new = Some thn → thr_alive thn = true → False) as Hidle.
  { intros s Hs thn Hn Ha. rewrite Hs, Hnew4 in Hn. injection Hn as <-. done. }
  destruct (objs w !! name) as [i|] eqn:Hi; cbn [app];
    repeat (apply Forall_cons; split); try (by apply Forall_nil);
    intros i' tho thn Hi' Hex Ho Hn Ha; try discriminate.
  - destruct (Hshort w1 eq_refl thn Hn Ha).
  - destruct (Hshort w2 eq_refl thn Hn Ha).
  - destruct (Hshort w3 eq_refl thn Hn Ha).
  - exfalso. eapply (Hshort (tell (EvKill i) (with_threads (alter killed i) w3)));
      [cbn; by rewrite length_alter | exact Hn | exact Ha].
  - exfalso. eapply (Hshort mid); [exact Hlen | exact Hn | exact Ha].
  - destruct (Hidle w4 eq_refl thn Hn Ha).
  - destruct (Hidle w5 eq_refl thn Hn Ha).
  - injection Hi' as <-.
    assert (i < new) as Hlt by (destruct Hex as [th Hth]; by eapply lookup_lt_Some).
    unfold w6, w5, w4 in Ho. cbn in Ho.
    rewrite list_lookup_alter_ne in Ho by lia.
    rewrite lookup_app_l in Ho by (rewrite !length_alter; exact Hlt).
    rewrite !list_lookup_alter_eq in Ho.
    destruct (threads w !! i); [|done]. injection Ho as <-. done.
Qed.

(** C1, as amended: on a spoke of a subclass of [NormalSpoke] whose title is
    a string, in a world where the thread manager's invariant holds and the
    thread registered under the spoke's name, if it is alive, stops when
    asked to, [on_back_clicked], after hiding the window and leaving the
    main loop, looks up the thread registered under the name; if there is
    one it sets its kill flag and joins it; then it creates, registers
    under the same name and starts one new thread that runs [check].  One
    thread of that name is alive afterwards, at most one of any name is
    alive in every world of the run, the old thread is dead with its flag
    set wherever the new one is alive, and the invariant holds again at the
    end. *)
Theorem on_back_clicked_restarts_check self window w t :
  issubclass (cls self) NormalSpoke = true →
  title (cls self) = Some t →
  registry_ok w →
  (∀ name, threadName self = Ok name → cooperative name w) →
  restarts_check self window w ∧
  registry_ok (final (on_back_clicked self window w)).
Proof. apply on_back_clicked_restarts. Qed.

Lemma registry_ok_foo_running : registry_ok foo_running.
Proof.
  intros i th Hi Ha. destruct i as [|i]; [|done].
  injection Hi as <-. reflexivity.
Qed.

Lemma cooperative_foo_running name : cooperative name foo_running.
Proof.
  intros i th _ Hi _. destruct i as [|i]; [|done].
  injection Hi as <-. discriminate.
Qed.

Lemma on_back_clicked_restarts_check_witness :
  restarts_check (a_spoke FooSpoke) 0 foo_running ∧
  registry_ok (final (on_back_clicked (a_spoke FooSpoke) 0 foo_running)).
Proof.
  apply (on_back_clicked_restarts_check (a_spoke FooSpoke) 0 foo_running "Foo").
  - reflexivity.
  - reflexivity.
  - exact registry_ok_foo_running.
  - intros name _. exact (cooperative_foo_running name).
Defined.

(** The scenario of the specification: the worker [AnaFooCheck] of the
    spoke titled "Foo" is running when the user goes back. *)
Example on_back_clicked_foo :
  let self := a_spoke FooSpoke in
  let r := on_back_clicked self 0 foo_running in
  out r = Return () ∧
  log (final r) = [EvHide self; EvMainQuit; EvGet "AnaFooCheck"; EvKill 0; EvJoin 0;
                   EvThread 1; EvAdd "AnaFooCheck" 1; EvStart 1] ∧
  threads (final r)
  = [MkThread "AnaFooCheck" (BoundCheck self Returns) true false;
     MkThread "AnaFooCheck" (BoundCheck self Returns) false true] ∧
  objs (final r) !! "AnaFooCheck" = Some 1 ∧
  live "AnaFooCheck" <$> visited r = [1; 1; 1; 1; 0; 0; 0; 1].
Proof. repeat split. Qed.

(** When the registered thread is alive and its target never returns, the
    handler sets the flag and then waits in [join] for ever. *)
Lemma on_back_clicked_hang self window w name i th :
  threadName self = Ok name → objs w !! name = Some i →
  threads w !! i = Some th → thr_alive th = true →
  im_func (thr_target th) = Forever →
  let w1 := tell (EvHide self) w in
  let w2 := tell EvMainQuit w1 in
  let w3 := tell (EvGet name) w2 in
  let wk := tell (EvKill i) (with_threads (alter killed i) w3) in
  on_back_clicked self window w = Run Hang wk [w1; w2; w3; wk].
Proof.
  intros Hname Hi Hth Ha Hf w1 w2 w3 wk.
  unfold on_back_clicked. rewrite Hname. cbn [lift].
  rewrite (bind_Return _ _ w () w1 [w1]) by reflexivity.
  rewrite (bind_Return _ _ w1 () w2 [w2]) by reflexivity.
  rewrite (bind_Return _ _ w2 name w2 []) by reflexivity.
  rewrite (bind_Return _ _ w2 (objs w !! name) w3 [w3]) by reflexivity.
  rewrite Hi.
  assert (blocks i wk = true) as Hb.
  { unfold blocks, wk. cbn. rewrite list_lookup_alter_eq, Hth. cbn.
    rewrite Ha. unfold exits. cbn. by rewrite Hf. }
  assert ((set_kill i ≫= λ _, join i) w3 = Run Hang wk [wk]) as Hkj.
  { rewrite (bind_Return _ _ w3 () wk [wk]) by reflexivity.
    unfold join. by rewrite Hb. }
  rewrite (bind_Hang _ _ w3 wk [wk] Hkj). reflexivity.
Qed.

Lemma cooperative_or_stuck name w :
  cooperative name w ∨
  ∃ i th, objs w !! name = Some i ∧ threads w !! i = Some th ∧
          thr_alive th = true ∧ im_func (thr_target th) = Forever.
Proof.
  unfold cooperative.
  destruct (objs w !! name) as [i|] eqn:Hi; [|left; intros i th H; discriminate].
  destruct (threads w !! i) as [th|] eqn:Hth;
    [|left; intros i' th' [= <-] H; congruence].
  destruct (thr_alive th) eqn:Ha;
    [|left; intros i' th' [= <-] H Ha'; congruence].
  destruct (decide (im_func (thr_target th) = Forever)) as [Hf|Hf].
  - right. by exists i, th.
  - left. intros i' th' [= <-] H _. congruence.
Qed.

(** Whatever the spoke and however the call ends, the handler leaves the
    invariant in place. *)
Lemma on_back_clicked_registry_ok self window w :
  issubclass (cls self) NormalSpoke = true → registry_ok w →
  registry_ok (final (on_back_clicked self window w)).
Proof.
  intros Hsub Hok. destruct (title (cls self)) as [t|] eqn:Ht.
  - assert (∃ name, threadName self = Ok name) as [name Hname].
    { unfold threadName. rewrite Ht. eauto. }
    destruct (cooperative_or_stuck name w) as [Hcoop | (i & th & Hi & Hth & Ha & Hf)].
    + apply (on_back_clicked_restarts self window w t); try done.
      intros name' Hname'. rewrite Hname in Hname'. by injection Hname' as <-.
    + rewrite (on_back_clicked_hang self window w name i th) by done.
      cbn [final]. apply registry_ok_tell, registry_ok_set_kill. by repeat apply registry_ok_tell.
  - rewrite on_back_clicked_untitled_run by done. cbn [final].
    by repeat apply registry_ok_tell.
Qed.

(** At most one check thread of each name is alive in every world the
    installer reaches by back clicks and by threads that finish. *)
Theorem single_flight_always w0 w :
  registry_ok w0 → reachable w0 w → ∀ n, (live n w ≤ 1)%nat.
Proof.
  intros Hok0 Hreach. apply registry_ok_live.
  induction Hreach as [| w self window _ IH Hsub | w i _ IH].
  - done.
  - by apply on_back_clicked_registry_ok.
  - by apply registry_ok_thread_exit.
Qed.

(** C1, as stated, fails on two spokes of subclasses of [NormalSpoke]: on
    one without a title the handler raises before it looks anything up, and
    on one whose running check never returns the handler waits for ever;
    neither starts a new thread. *)
Lemma on_back_clicked_not_always_restarts :
  (issubclass MinimalSpoke NormalSpoke = true ∧
   ¬ restarts_check (a_spoke MinimalSpoke) 0 foo_running ∧
   threads (final (on_back_clicked (a_spoke MinimalSpoke) 0 foo_running))
   = threads foo_running) ∧
  (issubclass StuckSpoke NormalSpoke = true ∧
   ¬ restarts_check (a_spoke StuckSpoke) 0 stuck_running ∧
   out (on_back_clicked (a_spoke StuckSpoke) 0 stuck_running) = Hang ∧
   length (threads (final (on_back_clicked (a_spoke StuckSpoke) 0 stuck_running))) = 1).
Proof.
  split.
  - split; [reflexivity|]. split; [|reflexivity].
    intros (name & target & Hname & _). discriminate.
  - split; [reflexivity|]. split; [|split; reflexivity].
    intros (name & target & _ & _ & Hout & _). discriminate.
Qed.

(** ** The flow around the hubs *)

Lemma flow_app hubs1 hubs2 spokes :
  flow (hubs1 ++ hubs2) spokes = flow hubs1 spokes ++ flow hubs2 spokes.
Proof.
  induction hubs1 as [|h hubs1 IH]; [done|].
  cbn [flow app]. rewrite IH. rewrite <- !app_assoc. cbn [app]. by rewrite <- ?app_assoc.
Qed.

Lemma run_flow_app f1 f2 : run_flow (f1 ++ f2) = run_flow f1 ++ run_flow f2.
Proof. induction f1 as [|a f1 IH]; [done|]. cbn. by rewrite IH. Qed.

(** C9: in the run of the flow, between the end of a hub and the beginning
    of the next hub come exactly the post-hub actions of the first, each run
    to its end, and then the pre-hub actions of the next; each group holds
    the standalone spokes declared for the hub and is in the order of their
    priorities, lower first, whatever the order in which the spokes were
    registered. *)
Theorem flow_sequencing hubs1 h1 h2 hubs2 spokes :
  (∃ before after,
      run_flow (flow (hubs1 ++ h1 :: h2 :: hubs2) spokes)
      = before ++ [End_ (RunHub h1)] ++
        run_flow (RunSpoke <$> post_actions spokes h1) ++
        run_flow (RunSpoke <$> pre_actions spokes h2) ++
        [Begin (RunHub h2)] ++ after) ∧
  (∀ h, StronglySorted by_priority (pre_actions spokes h) ∧
        StronglySorted by_priority (post_actions spokes h)) ∧
  (∀ h c, (c ∈ pre_actions spokes h ↔ c ∈ spokes ∧ preForHub c = Some (Some h)) ∧
          (c ∈ post_actions spokes h ↔ c ∈ spokes ∧ postForHub c = Some (Some h))) ∧
  (∀ spokes', spokes' ≡ₚ spokes →
      ∀ h, pre_actions spokes' h ≡ₚ pre_actions spokes h ∧
           post_actions spokes' h ≡ₚ post_actions spokes h).
Proof.
  split; [|split; [|split]].
  - exists (run_flow (flow hubs1 spokes) ++
            run_flow (RunSpoke <$> pre_actions spokes h1) ++ [Begin (RunHub h1)]),
           (End_ (RunHub h2) :: run_flow (RunSpoke <$> post_actions spokes h2) ++
            run_flow (flow hubs2 spokes)).
    rewrite flow_app. cbn [flow]. rewrite !run_flow_app. cbn [run_flow app].
    by rewrite <- !app_assoc.
  - intros h. split; apply StronglySorted_merge_sort; apply _.
  - intros h c. unfold pre_actions, post_actions.
    rewrite !merge_sort_Permutation, !list_elem_of_filter. tauto.
  - intros spokes' Hperm h. unfold pre_actions, post_actions.
    rewrite !merge_sort_Permutation. by rewrite Hperm.
Qed.

Lemma flow_sequencing_witness :
  pre_actions [PreHub2; PostHub1] Hub2 ≡ₚ pre_actions [PostHub1; PreHub2] Hub2 ∧
  post_actions [PreHub2; PostHub1] Hub1 ≡ₚ post_actions [PostHub1; PreHub2] Hub1.
Proof.
  destruct (flow_sequencing [] Hub1 Hub2 [] [PostHub1; PreHub2]) as (_ & _ & _ & Hperm).
  destruct (Hperm [PreHub2; PostHub1] (perm_swap _ _ _) Hub2) as [Hpre _].
  destruct (Hperm [PreHub2; PostHub1] (perm_swap _ _ _) Hub1) as [_ Hpost].
  split; assumption.
Defined.

(** The scenario of the specification: a post-hub action of Hub1 and a
    pre-hub action of Hub2, both of priority 0, in either registration
    order. *)
Example flow_two_hubs :
  flow [Hub1; Hub2] [PreHub2; PostHub1]
  = [RunHub Hub1; RunSpoke PostHub1; RunSpoke PreHub2; RunHub Hub2] ∧
  flow [Hub1; Hub2] [PostHub1; PreHub2]
  = [RunHub Hub1; RunSpoke PostHub1; RunSpoke PreHub2; RunHub Hub2] ∧
  run_flow (flow [Hub1; Hub2] [PreHub2; PostHub1])
  = [Begin (RunHub Hub1); End_ (RunHub Hub1);
     Begin (RunSpoke PostHub1); End_ (RunSpoke PostHub1);
     Begin (RunSpoke PreHub2); End_ (RunSpoke PreHub2);
     Begin (RunHub Hub2); End_ (RunHub Hub2)].
Proof. repeat split. Qed.

(** * Further properties of the code *)

(** ** Thread names *)

Lemma list_ascii_of_string_app s1 s2 :
  list_ascii_of_string (s1 +:+ s2)
  = list_ascii_of_string s1 ++ list_ascii_of_string s2.
Proof. induction s1 as [|c s1 IH]; [done|]. simpl. by rewrite IH. Qed.

Lemma append_inv_tail s1 s2 s : s1 +:+ s = s2 +:+ s → s1 = s2.
Proof.
  intros H. apply (f_equal list_ascii_of_string) in H.
  rewrite !list_ascii_of_string_app in H. apply app_inv_tail in H.
  rewrite <- (string_of_list_ascii_of_string s1), <- (string_of_list_ascii_of_string s2).
  by rewrite H.
Qed.

Lemma remove_In p c s : In c (list_ascii_of_string (remove p s)) → p c = false.
Proof.
  induction s as [|c' s IH]; cbn; [done|].
  destruct (p c') eqn:Hp; [exact IH|]. cbn. intros [<- | H]; [done | by apply IH].
Qed.

(** Two spokes with a title get the same thread name exactly when their
    titles are the same once the spaces are taken out. *)
Theorem threadName_collision self1 self2 t1 t2 :
  title (cls self1) = Some t1 → title (cls self2) = Some t2 →
  (threadName self1 = threadName self2 ↔ without_spaces t1 = without_spaces t2).
Proof.
  intros H1 H2. unfold threadName. rewrite H1, H2, !replace_space. split.
  - intros [= H]. change ("" +:+ ?x) with x in H. by apply append_inv_tail in H.
  - by intros ->.
Qed.

Lemma threadName_collision_witness :
  threadName (a_spoke FooSpoke) = threadName (a_spoke SpacedFooSpoke).
Proof.
  apply (threadName_collision (a_spoke FooSpoke) (a_spoke SpacedFooSpoke) "Foo" "F o o");
    reflexivity.
Defined.

(** The name of a check thread has no space in it. *)
Theorem threadName_no_space self name :
  threadName self = Ok name → ¬ In " "%char (list_ascii_of_string name).
Proof.
  unfold threadName. destruct (title (cls self)) as [t|]; [|done].
  intros [= <-]. rewrite replace_space, !list_ascii_of_string_app, !in_app_iff.
  intros [H | [H | H]].
  - cbn in H. destruct H as [H | [H | [H | []]]]; discriminate.
  - apply remove_In in H. discriminate.
  - cbn in H. destruct H as [H | [H | [H | [H | [H | []]]]]]; discriminate.
Qed.

Lemma threadName_no_space_witness :
  ¬ In " "%char (list_ascii_of_string "AnaFooCheck").
Proof.
  apply (threadName_no_space (a_spoke SpacedFooSpoke) "AnaFooCheck"). reflexivity.
Defined.

(** ** Back navigation, further *)


(** When the thread registered under the spoke's name is alive and its
    [check] never returns, the handler sets the kill flag of that thread and
    then stays in [join]: it does not return, creates no thread, and leaves
    the registry as it was. *)
Theorem on_back_clicked_blocks self window w name i th :
  threadName self = Ok name → objs w !! name = Some i →
  threads w !! i = Some th → thr_alive th = true →
  im_func (thr_target th) = Forever →
  let r := on_back_clicked self window w in
  out r = Hang ∧
  log (final r) = log w ++ [EvHide self; EvMainQuit; EvGet name; EvKill i] ∧
  threads (final r) !! i = Some (killed th) ∧
  length (threads (final r)) = length (threads w) ∧
  objs (final r) = objs w.
Proof.
  intros Hname Hi Hth Ha Hf r. subst r.
  rewrite (on_back_clicked_hang self window w name i th) by done.
  cbn. rewrite <- !app_assoc, list_lookup_alter_eq, Hth, length_alter. done.
Qed.

Lemma on_back_clicked_blocks_witness :
  out (on_back_clicked (a_spoke StuckSpoke) 0 stuck_running) = Hang.
Proof.
  eapply (on_back_clicked_blocks (a_spoke StuckSpoke) 0 stuck_running "AnaStuckCheck" 0);
    reflexivity.
Defined.

Lemma no_stuck_Forall w :
  no_stuck w ↔ Forall (λ th, im_func (thr_target th) ≠ Forever) (threads w).
Proof. unfold no_stuck. by rewrite Forall_lookup. Qed.

(** When no thread runs a [check] that never returns and the spoke's own
    [check] is not such either, the handler on a spoke with a title returns,
    and afterwards there is still no such thread: back clicks never block
    then, however many follow each other. *)
Theorem on_back_clicked_returns self window w t :
  issubclass (cls self) NormalSpoke = true →
  title (cls self) = Some t →
  resolve_check (cls self) ≠ Some Forever →
  no_stuck w →
  out (on_back_clicked self window w) = Return () ∧
  no_stuck (final (on_back_clicked self window w)).
Proof.
  intros Hsub Ht Hcheck Hns. apply bool_decide_eq_true in Hsub.
  destruct (resolve_check_NormalSpoke _ Hsub) as [target Htarget].
  assert (∃ name, threadName self = Ok name) as [name Hname].
  { unfold threadName. rewrite Ht. eauto. }
  assert (cooperative name w) as Hcoop.
  { intros i th _ Hth _. by eapply Hns. }
  rewrite (on_back_clicked_run self window w name target) by done.
  cbv beta zeta. cbn [out final]. split; [done|].
  apply no_stuck_Forall. apply no_stuck_Forall in Hns. cbn.
  apply Forall_alter; [|done]. apply Forall_app. split.
  - destruct (objs w !! name) as [i|]; cbn; [|done].
    apply Forall_alter; [|done]. apply Forall_alter; done.
  - apply Forall_singleton. cbn. congruence.
Qed.

Lemma on_back_clicked_returns_witness :
  out (on_back_clicked (a_spoke FooSpoke) 0 foo_running) = Return ().
Proof.
  apply (on_back_clicked_returns (a_spoke FooSpoke) 0 foo_running "Foo").
  - reflexivity.
  - reflexivity.
  - discriminate.
  - intros i th Hi. destruct i as [|i]; [|done]. injection Hi as <-. discriminate.
Defined.

(** The handler on a spoke with a title, however it ends, leaves alone what
    is not its own: the shared data and the connected handlers stay as they
    were, the registry changes at most under the spoke's own thread name, a
    thread other than the one registered under that name keeps its state,
    and no thread is removed, renamed or given another target. *)
Theorem on_back_clicked_frame self window w name :
  issubclass (cls self) NormalSpoke = true → threadName self = Ok name →
  let r := on_back_clicked self window w in
  ks (final r) = ks w ∧ handlers (final r) = handlers w ∧
  (∀ n, n ≠ name → objs (final r) !! n = objs w !! n) ∧
  (∀ j th, threads w !! j = Some th → objs w !! name ≠ Some j →
           threads (final r) !! j = Some th) ∧
  (∀ j th, threads w !! j = Some th →
           ∃ th', threads (final r) !! j = Some th' ∧
                  thr_name th' = thr_name th ∧ thr_target th' = thr_target th).
Proof.
  intros Hsub Hname r. subst r. apply bool_decide_eq_true in Hsub.
  destruct (resolve_check_NormalSpoke _ Hsub) as [target Htarget].
  destruct (cooperative_or_stuck name w) as [Hcoop | (i & th & Hi & Hth & Ha & Hf)].
  - rewrite (on_back_clicked_run self window w name target) by done.
    cbv beta zeta. cbn [final].
    set (th0 := MkThread name (BoundCheck self target) false false).
    assert (∀ j th, threads w !! j = Some th →
              ∃ th', match objs w !! name with
                     | Some i => alter finished i (alter killed i (threads w))
                     | None => threads w
                     end !! j = Some th' ∧
                     thr_name th' = thr_name th ∧ thr_target th' = thr_target th ∧
                     (objs w !! name ≠ Some j → th' = th)) as Hmid.
    { intros j th Hj. destruct (objs w !! name) as [i|]; [|by exists th].
      destruct (decide (i = j)) as [->|Hne].
      - exists (finished (killed th)).
        rewrite !list_lookup_alter_eq, Hj. done.
      - exists th. rewrite !list_lookup_alter_ne by done. done. }
    assert (∀ j th, threads w !! j = Some th → j < length (threads w)) as Hlt.
    { intros j th. apply lookup_lt_Some. }
    repeat split.
    + by destruct (objs w !! name).
    + by destruct (objs w !! name).
    + intros n Hn. cbn. rewrite lookup_insert_ne by done.
      by destruct (objs w !! name).
    + intros j th Hj Hnot. destruct (Hmid j th Hj) as (th' & Hj' & _ & _ & Heq).
      rewrite (Heq Hnot) in Hj'. specialize (Hlt j th Hj). cbn.
      rewrite list_lookup_alter_ne by lia.
      apply lookup_app_l_Some. by destruct (objs w !! name).
    + intros j th Hj. destruct (Hmid j th Hj) as (th' & Hj' & Hn & Htg & _).
      exists th'. split; [|done]. specialize (Hlt j th Hj). cbn.
      rewrite list_lookup_alter_ne by lia.
      apply lookup_app_l_Some. by destruct (objs w !! name).
  - rewrite (on_back_clicked_hang self window w name i th) by done.
    cbv beta zeta. cbn [final]. repeat split.
    + intros j th' Hj Hnot. cbn.
      rewrite list_lookup_alter_ne; [done|]. intros ->. by rewrite Hi in Hnot.
    + intros j th' Hj. cbn. destruct (decide (i = j)) as [->|Hne].
      * exists (killed th'). by rewrite list_lookup_alter_eq, Hj.
      * exists th'. by rewrite list_lookup_alter_ne.
Qed.

Lemma on_back_clicked_frame_witness :
  ks (final (on_back_clicked (a_spoke SpacedFooSpoke) 0 stuck_running)) = ks stuck_running ∧
  threads (final (on_back_clicked (a_spoke SpacedFooSpoke) 0 stuck_running)) !! 0
  = threads stuck_running !! 0.
Proof.
  destruct (on_back_clicked_frame (a_spoke SpacedFooSpoke) 0 stuck_running "AnaFooCheck"
              eq_refl eq_refl) as (Hks & _ & _ & Hthr & _).
  split; [exact Hks|]. apply Hthr; [reflexivity | discriminate].
Defined.



Lemma single_flight_always_witness :
  let w1 := final (on_back_clicked (a_spoke FooSpoke) 0 empty_world) in
  let w2 := thread_exit 0 w1 in
  let w3 := final (on_back_clicked (a_spoke SpacedFooSpoke) 0 w2) in
  (live "AnaFooCheck" w3 ≤ 1)%nat.
Proof.
  intros w1 w2 w3.
  apply (single_flight_always empty_world w3).
  - intros i th Hi. destruct i; discriminate.
  - apply reach_click; [|reflexivity].
    apply reach_exit. apply reach_click; [|reflexivity]. apply reach_init.
Defined.

(** ** The event hooks, further *)

(** [register_event_cb] knows two events.  For any other event name it
    connects nothing and leaves the world as it is, without an error. *)
Theorem register_event_cb_unknown self event cb w :
  event ≠ "continue" → event ≠ "quit" →
  register_event_cb self event cb w = Run (Return ()) w [].
Proof.
  intros Hc Hq. unfold register_event_cb.
  apply String.eqb_neq in Hc. apply String.eqb_neq in Hq. by rewrite Hc, Hq.
Qed.

Lemma register_event_cb_unknown_witness :
  register_event_cb (a_spoke WelcomeSpoke) "Continue" (λ d, Ok d) empty_world
  = Run (Return ()) empty_world [].
Proof.
  apply (register_event_cb_unknown (a_spoke WelcomeSpoke) "Continue"); discriminate.
Defined.

(** On a spoke whose class does not override [apply], the continue hook
    raises [NotImplementedError] out of [apply()]: the callback is never
    entered and the shared data is untouched. *)
Theorem on_continue_without_apply self cb w :
  overrides cb_apply (cls self) = false →
  let r := _on_continue_clicked self cb w in
  out r = Raise NotImplementedError ∧
  log (final r) = log w ++ [EvApply self] ∧
  ks (final r) = ks w.
Proof.
  intros H r. subst r. unfold _on_continue_clicked, apply.
  rewrite resolve_apply_default by done. done.
Qed.

Lemma on_continue_without_apply_witness :
  out (_on_continue_clicked (a_spoke PostHub1) (λ d, Ok d) empty_world)
  = Raise NotImplementedError.
Proof.
  apply (on_continue_without_apply (a_spoke PostHub1) (λ d, Ok d) empty_world).
  reflexivity.
Defined.

(** ** Discovery, further *)

(** A spoke class whose [category] resolves to [None] is never collected,
    whatever the category asked for.  The four base classes are such: a
    module that imports them does not make them appear on a hub. *)
Theorem collect_spokes_skips_uncategorised modules cat :
  (∀ c, category c = None → ¬ In (PySpoke c) (collect_spokes modules cat)) ∧
  (∀ b : builtin, ¬ In (PySpoke b) (collect_spokes modules cat)).
Proof.
  assert (∀ c, category c = None → ¬ In (PySpoke c) (collect_spokes modules cat)) as H.
  { intros c Hc Hin. unfold collect_spokes, collect in Hin.
    apply filter_In in Hin as [_ Hp].
    unfold collect_spokes_pred in Hp. cbn in Hp. by rewrite Hc in Hp. }
  split; [exact H|]. intros b. by apply H.
Qed.

Lemma collect_spokes_skips_uncategorised_witness :
  ¬ In (PySpoke MinimalSpoke) (collect_spokes three_spokes "HubA").
Proof.
  destruct (collect_spokes_skips_uncategorised three_spokes "HubA") as [H _].
  apply H. reflexivity.
Defined.

(** A class is collected for at most one category name. *)
Theorem collect_spokes_disjoint modules cat1 cat2 obj :
  In obj (collect_spokes modules cat1) → In obj (collect_spokes modules cat2) →
  cat1 = cat2.
Proof.
  unfold collect_spokes, collect. rewrite !filter_In, !collect_spokes_pred_spec.
  intros [_ (c1 & Hc1 & <-)] [_ (c2 & Hc2 & <-)]. congruence.
Qed.

Lemma collect_spokes_disjoint_witness :
  In (PySpoke SpokeA) (collect_spokes three_spokes "HubA") ∧ "HubA" = "HubA".
Proof.
  assert (In (PySpoke SpokeA) (collect_spokes three_spokes "HubA")) as HA
    by (cbn; by left).
  split; [exact HA|].
  exact (collect_spokes_disjoint three_spokes "HubA" "HubA" (PySpoke SpokeA) HA HA).
Defined.

(** A subclass that does not bind [category] itself is collected for
    exactly the categories its parent class is collected for, when the scan
    finds both. *)
Theorem collect_spokes_inherits modules cat n parent body :
  cb_category body = None →
  In (PySpoke parent) (modules "spokes") →
  In (PySpoke (Subclass n parent body)) (modules "spokes") →
  (In (PySpoke (Subclass n parent body)) (collect_spokes modules cat) ↔
   In (PySpoke parent) (collect_spokes modules cat)).
Proof.
  intros Hb Hp Hc. unfold collect_spokes, collect. rewrite !filter_In.
  unfold collect_spokes_pred. cbn. rewrite Hb. cbn. tauto.
Qed.

Lemma collect_spokes_inherits_witness :
  In (PySpoke SubSpokeA) (collect_spokes with_imports "HubA").
Proof.
  apply (collect_spokes_inherits with_imports "HubA" "SubSpokeA" SpokeA pass).
  - reflexivity.
  - right. by left.
  - right. right. by left.
  - cbn. by left.
Defined.

(** ** Construction, further *)

Lemma both_hubs_inherited n parent body :
  cb_preForHub body = None → cb_postForHub body = None →
  both_hubs (Subclass n parent body) = both_hubs parent.
Proof. intros Hpre Hpost. unfold both_hubs. cbn. by rewrite Hpre, Hpost. Qed.

(** A subclass of a subclass that binds neither [preForHub] nor
    [postForHub] itself can be constructed exactly when its parent class
    can: it inherits the hub references, and with them the error for
    binding both. *)
Theorem construct_inherits n n0 parent0 body0 body d dt p ic :
  let parent := Subclass n0 parent0 body0 in
  cb_preForHub body = None → cb_postForHub body = None →
  ((∃ self, construct (Subclass n parent body) d dt p ic = Ok self) ↔
   (∃ self, construct parent d dt p ic = Ok self)).
Proof.
  intros parent Hpre Hpost.
  destruct (builtin_of parent) eqn:Hb.
  - unfold construct. cbn [builtin_of]. fold parent. rewrite Hb. cbn. split; eauto.
  - pose proof (construct_standalone_subclass n parent body d dt p ic) as Hc.
    pose proof (construct_standalone_subclass n0 parent0 body0 d dt p ic) as Hp.
    cbv zeta in Hc, Hp. fold parent in Hp. rewrite Hc, Hp by done.
    rewrite both_hubs_inherited by done.
    destruct (both_hubs parent); split; intros [self H]; try discriminate; eauto.
  - unfold construct. cbn [builtin_of]. fold parent. rewrite Hb. cbn. split; eauto.
  - unfold construct. cbn [builtin_of]. fold parent. rewrite Hb. cbn. split; eauto.
Qed.

Lemma construct_inherits_witness :
  ∃ self, construct LateWelcomeSpoke 1 2 3 4 = Ok self.
Proof.
  unfold LateWelcomeSpoke, WelcomeSpoke.
  match goal with
  | |- ∃ self, construct (Subclass ?n (Subclass ?n0 ?p0 ?b0) ?b) _ _ _ _ = _ =>
      apply (construct_inherits n n0 p0 b0 b 1 2 3 4 eq_refl eq_refl)
  end.
  eexists. reflexivity.
Defined.

(** Whatever happens in the continue hook, the first thing logged is the
    entry into [apply()]. *)
Lemma on_continue_before_callback_log self cb w :
  ∃ tail, log (final (_on_continue_clicked self cb w)) = log w ++ EvApply self :: tail.
Proof.
  unfold _on_continue_clicked, apply, call.
  destruct (resolve_apply_cases (cls self) self (tell (EvApply self) w))
    as [[e He] | [d He]].
  - exists []. unfold mbind, M_bind, step. cbn. rewrite He. done.
  - exists [EvCallback]. unfold mbind, M_bind, step, run_body. cbn. rewrite He. cbn.
    destruct (cb d); cbn; rewrite <- app_assoc; done.
Qed.

(** ** What the connected handlers do *)

(** After [register_event_cb] for "quit" the handler connected last, to
    "quit-clicked", enters the callback and nothing else when it is called:
    [apply()] is not entered.  After [register_event_cb] for "continue" the
    handler connected last, to "continue-clicked", is the continue hook on
    the same spoke and callback. *)
Theorem register_event_cb_handlers self cb w :
  (let w1 := final (register_event_cb self "quit" cb w) in
   ∃ f, last (handlers w1) = Some ("quit-clicked", f) ∧
        log (final (invoke f w1)) = log w ++ [EvConnect "quit-clicked"; EvCallback] ∧
        match cb (ks w) with
        | Ok d => out (invoke f w1) = Return () ∧ ks (final (invoke f w1)) = d
        | Err e => out (invoke f w1) = Raise e ∧ ks (final (invoke f w1)) = ks w
        end) ∧
  (let w1 := final (register_event_cb self "continue" cb w) in
   ∃ f, last (handlers w1) = Some ("continue-clicked", f) ∧
        invoke f w1 = _on_continue_clicked self cb w1 ∧
        ∃ tail, log (final (invoke f w1))
                = log w ++ [EvConnect "continue-clicked"; EvApply self] ++ tail).
Proof.
  split.
  - exists (lambda_quit cb). cbn. split; [apply last_snoc|].
    unfold call, mbind, M_bind, step, run_body. cbn.
    destruct (cb (ks w)); cbn; rewrite <- !app_assoc; done.
  - exists (lambda_continue self cb). cbn. split; [apply last_snoc|]. split; [done|].
    set (w1 := tell (EvConnect "continue-clicked")
                 (connect "continue-clicked" (lambda_continue self cb) w)).
    destruct (on_continue_before_callback_log self cb w1) as [tail Htail].
    exists tail. rewrite Htail. unfold w1. cbn. by rewrite <- !app_assoc.
Qed.
